(** * creditfix: the form validation and submission pipeline of script.js

    A shallow embedding of [formatPhoneNumber], [isValidEmail] and the
    [FormHandler] class of [src/script.js], and the properties of the
    pipeline stated over it.

    JavaScript strings are sequences of UTF-16 code units; a code unit is
    an [N].  The three regular expressions of the source are anchored
    sequences of quantified character classes; they are run by one
    backtracking matcher that tries the greedy count first, as the
    JavaScript engine does. *)

From Stdlib Require Import NArith Ascii String.
From stdpp Require Import list.

Local Open Scope N_scope.
Local Open Scope nat_scope.

(** ** JavaScript strings *)

Module JS.

Definition jsstring := list N.

(** The code units of an ASCII literal of the source. *)
Definition js (s : string) : jsstring := List.map N_of_ascii (list_ascii_of_string s).

(** [\d]: the ten ASCII digits. *)
Definition is_digit (c : N) : bool := ((48 <=? c) && (c <=? 57))%N.

(** [\s], which is also the set that [String.prototype.trim] strips:
    WhiteSpace and LineTerminator code points. *)
Definition is_space (c : N) : bool :=
  ((9 <=? c) && (c <=? 13)       (* \t \n \v \f \r *)
   || (c =? 32) || (c =? 160)    (* space, no-break space *)
   || (c =? 5760)                (* U+1680 *)
   || ((8192 <=? c) && (c <=? 8202))  (* U+2000 .. U+200A *)
   || (c =? 8232) || (c =? 8233) (* line and paragraph separators *)
   || (c =? 8239) || (c =? 8287) || (c =? 12288)
   || (c =? 65279))%N.           (* U+FEFF *)

Fixpoint trimStart (s : jsstring) : jsstring :=
  match s with
  | c :: s' => if is_space c then trimStart s' else s
  | [] => []
  end.

Definition trimEnd (s : jsstring) : jsstring := rev (trimStart (rev s)).

Definition trim (s : jsstring) : jsstring := trimEnd (trimStart s).

(** Truthiness of a string value: only the empty string is falsy. *)
Definition truthy (s : jsstring) : bool :=
  match s with [] => false | _ :: _ => true end.

Fixpoint strict_eq (a b : jsstring) : bool :=
  match a, b with
  | [], [] => true
  | x :: a', y :: b' => (x =? y)%N && strict_eq a' b'
  | _, _ => false
  end.

End JS.
Export JS.

(** ** Regular expressions of the source *)

Module Regex.

Inductive charclass : Type :=
| digit                (* \d *)
| not_space_at         (* [^\s@] *)
| lit (c : N).         (* one literal character *)

Definition in_class (k : charclass) (c : N) : bool :=
  match k with
  | digit => is_digit c
  | not_space_at => negb (is_space c || (c =? 64)%N)
  | lit d => (c =? d)%N
  end.

(** A quantified class: [k{lo,hi}], with [hi = None] for [+] and [*]. *)
Record atom : Type := Atom { cls : charclass; lo : nat; hi : option nat }.

Definition exactly (n : nat) (k : charclass) : atom := Atom k n (Some n).
Definition upto (n : nat) (k : charclass) : atom := Atom k 0 (Some n).
Definition plus (k : charclass) : atom := Atom k 1 None.
Definition chr (s : string) : atom :=
  match js s with
  | c :: _ => exactly 1 (lit c)
  | [] => exactly 0 digit
  end.

(** Length of the longest prefix of [s] inside the class. *)
Fixpoint span (k : charclass) (s : jsstring) : nat :=
  match s with
  | c :: s' => if in_class k c then S (span k s') else 0
  | [] => 0
  end.

(** The count a greedy quantifier takes first. *)
Definition greedy (a : atom) (s : jsstring) : nat :=
  match hi a with
  | Some h => Nat.min h (span (cls a) s)
  | None => span (cls a) s
  end.

(** Backtracking: give the atom [n] characters, and one less each time
    the rest of the pattern fails, down to [lo]. *)
Fixpoint try_down (n : nat) (low : nat)
    (rest : jsstring -> option (list jsstring)) (s : jsstring)
    : option (list jsstring) :=
  if n <? low then None
  else match rest (drop n s) with
       | Some caps => Some (take n s :: caps)
       | None =>
           match n with
           | S n' => try_down n' low rest s
           | O => None
           end
       end.

(** [^ a1 a2 ... $] against the whole of [s]; the result lists what each
    atom matched. *)
Fixpoint match_seq (p : list atom) (s : jsstring) : option (list jsstring) :=
  match p with
  | [] => match s with [] => Some [] | _ :: _ => None end
  | a :: p' => try_down (greedy a s) (lo a) (match_seq p') s
  end.

(** [RegExp.prototype.test]. *)
Definition test (p : list atom) (s : jsstring) : bool :=
  match match_seq p s with Some _ => true | None => false end.

End Regex.
Export Regex.

(** ** Utility functions (script.js, lines 79-97) *)

(** [/^(\d{0,3})(\d{0,3})(\d{0,4})$/] *)
Definition phoneGroups : list atom := [upto 3 digit; upto 3 digit; upto 4 digit].

(** [/^[^\s@]+@[^\s@]+\.[^\s@]+$/] *)
Definition emailRegex : list atom :=
  [plus not_space_at; chr "@"; plus not_space_at; chr "."; plus not_space_at].

(** [/^\(\d{3}\) \d{3}-\d{4}$/] *)
Definition phoneRegex : list atom :=
  [chr "("; exactly 3 digit; chr ")"; chr " "; exactly 3 digit; chr "-";
   exactly 4 digit].

(** [value.replace(/\D/g, '')] *)
Definition stripNonDigits (value : jsstring) : jsstring := List.filter is_digit value.

Definition formatPhoneNumber (value : jsstring) : jsstring :=
  let phone := stripNonDigits value in
  match match_seq phoneGroups phone with
  | Some [m1; m2; m3] =>
      if negb (truthy m2) then m1
      else if negb (truthy m3) then js "(" ++ m1 ++ js ") " ++ m2
      else js "(" ++ m1 ++ js ") " ++ m2 ++ js "-" ++ m3
  | _ => value
  end.

Definition isValidEmail (email : jsstring) : bool := test emailRegex email.

(** ** The page, as far as [FormHandler] reads and writes it *)

Module Dom.

Inductive tag : Type := input | select | textarea.

(** A form control.  [errorClass] is [classList.contains('error')];
    [is_disabled] is the control being actually disabled. *)
Record field : Type := Field {
  tagName : tag;
  type : jsstring;
  name : jsstring;
  required : bool;
  value : jsstring;
  defaultValue : jsstring;
  checked : bool;
  defaultChecked : bool;
  errorClass : bool;
  is_disabled : bool
}.

(** A [parentNode] of form controls: its controls, and the text of its
    [.field-error] descendants, both in document order.  Parents of
    different controls are taken to be disjoint subtrees, so that
    [querySelector('.field-error')] on one never sees another's. *)
Record group : Type := Group {
  controls : list field;
  fieldErrors : list jsstring
}.

(** A control is addressed by the index of its parent in the form and
    its index among the parent's controls. *)
Definition ref : Type := nat * nat.

Record button : Type := Button { disabled : bool; innerHTML : jsstring }.

(** A [div.notification] appended to [document.body].  The timers that
    animate and later remove it are outside the model. *)
Record notification : Type := Notification {
  message : jsstring;
  kind : jsstring
}.

(** The values in the object handed to [submitToAPI]: strings, the
    array of [creditIssues], and the [File] objects of file inputs,
    which stay opaque. *)
Inductive jsvalue : Type :=
| VStr (s : jsstring)
| VArr (l : list jsstring)
| VFile.

Definition object : Type := list (jsstring * jsvalue).

(** How the promise of [submitToAPI] settles.  A throw inside the async
    callee is a rejection of its promise. *)
Inductive outcome : Type :=
| Fulfilled
| Rejected (reason : jsstring).

Record page : Type := Page {
  form : list group;                (* #creditAnalysisForm *)
  submitButton : option button;     (* .form-submit-btn, when present *)
  originalButtonText : jsstring;    (* its innerHTML at construction *)
  body : list notification;         (* notifications appended to the body *)
  successModal : option bool;       (* #successModal: has class 'active' *)
  console : list (jsstring * jsstring);
  network : list object;            (* calls of submitToAPI, oldest first *)
  pending : nat                     (* calls not settled yet *)
}.

Definition with_form (f : list group -> list group) (st : page) : page :=
  Page (f (form st)) (submitButton st) (originalButtonText st) (body st)
       (successModal st) (console st) (network st) (pending st).

Definition with_button (b : option button) (st : page) : page :=
  Page (form st) b (originalButtonText st) (body st)
       (successModal st) (console st) (network st) (pending st).

Definition get_field (r : ref) (st : page) : option field :=
  match form st !! r.1 with
  | Some g => controls g !! r.2
  | None => None
  end.

Definition alter_field (f : field -> field) (i : nat) (g : group) : group :=
  Group (alter f i (controls g)) (fieldErrors g).

Definition alter_errors (f : list jsstring -> list jsstring) (g : group) : group :=
  Group (controls g) (f (fieldErrors g)).

Definition set_errorClass (b : bool) (f : field) : field :=
  Field (tagName f) (type f) (name f) (required f) (value f)
        (defaultValue f) (checked f) (defaultChecked f) b (is_disabled f).

Definition set_value (v : jsstring) (f : field) : field :=
  Field (tagName f) (type f) (name f) (required f) v
        (defaultValue f) (checked f) (defaultChecked f) (errorClass f)
        (is_disabled f).

(** [HTMLFormElement.reset] on one control. *)
Definition reset_field (f : field) : field :=
  Field (tagName f) (type f) (name f) (required f) (defaultValue f)
        (defaultValue f) (defaultChecked f) (defaultChecked f) (errorClass f)
        (is_disabled f).

(** Indices of the controls of a parent that satisfy [p], from [i] on. *)
Fixpoint select_in (p : field -> bool) (g i : nat) (cs : list field) : list ref :=
  match cs with
  | f :: cs' => (if p f then [(g, i)] else []) ++ select_in p g (S i) cs'
  | [] => []
  end.

Fixpoint select_from (p : field -> bool) (g : nat) (gs : list group) : list ref :=
  match gs with
  | grp :: gs' => select_in p g 0 (controls grp) ++ select_from p (S g) gs'
  | [] => []
  end.

(** [form.querySelectorAll], for a selector that [p] decides. *)
Definition querySelectorAll (p : field -> bool) (st : page) : list ref :=
  select_from p 0 (form st).

Definition querySelector (p : field -> bool) (st : page) : option ref :=
  head (querySelectorAll p st).

Definition all_fields (st : page) : list field :=
  concat (List.map controls (form st)).

End Dom.
Export Dom.

(** ** FormHandler (script.js, lines 360-582) *)

Module FormHandler.

(** The methods read and write the page: a state monad over [page]. *)
Definition M (A : Type) : Type := page -> A * page.

Definition ret {A : Type} (a : A) : M A := fun st => (a, st).

Definition bind {A B : Type} (m : M A) (k : A -> M B) : M B :=
  fun st => let (a, st') := m st in k a st'.

Definition modify (f : page -> page) : M unit := fun st => (tt, f st).

Definition get : M page := fun st => (st, st).

Notation "'let*' x := m 'in' k" := (bind m (fun x => k))
  (at level 10, x name, m at level 100, k at level 200).
Notation "m >> k" := (bind m (fun _ => k))
  (at level 65, right associativity).

(** The effect of a method, and its result. *)
Definition exec {A : Type} (m : M A) (st : page) : page := (m st).2.
Definition eval {A : Type} (m : M A) (st : page) : A := (m st).1.

(** [clearFieldError]: drop the class, and remove the first
    [.field-error] under the parent, if there is one. *)
Definition clearFieldError (r : ref) : M unit :=
  modify (with_form (alter (fun g =>
    alter_errors (drop 1) (alter_field (set_errorClass false) r.2 g)) r.1)).

(** [showFieldError]: add the class, and append a new [div.field-error]
    to the parent. *)
Definition showFieldError (r : ref) (message : jsstring) : M unit :=
  modify (with_form (alter (fun g =>
    alter_errors (fun es => es ++ [message])
                 (alter_field (set_errorClass true) r.2 g)) r.1)).

Definition validateField (r : ref) : M bool :=
  let* st := get in
  match get_field r st with
  | None => ret true     (* not an element of the form: never passed *)
  | Some field =>
      let value := trim (value field) in
      let isValid := true in
      let errorMessage := js "" in
      (* Remove existing error *)
      clearFieldError r >>
      (* Required field validation *)
      let '(isValid, errorMessage) :=
        if required field && negb (truthy value)
        then (false, js "This field is required")
        else (isValid, errorMessage) in
      (* Email validation *)
      let '(isValid, errorMessage) :=
        if strict_eq (type field) (js "email") && truthy value
           && negb (isValidEmail value)
        then (false, js "Please enter a valid email address")
        else (isValid, errorMessage) in
      (* Phone validation *)
      let '(isValid, errorMessage) :=
        if strict_eq (name field) (js "phone") && truthy value
        then if negb (test phoneRegex value)
             then (false, js "Please enter a valid phone number")
             else (isValid, errorMessage)
        else (isValid, errorMessage) in
      (if negb isValid then showFieldError r errorMessage else ret tt) >>
      ret isValid
  end.

(** The callback of [requiredFields.forEach] in [validateForm], with the
    captured [isValid] passed along. *)
Fixpoint forEach_validate (fields : list ref) (isValid : bool) : M bool :=
  match fields with
  | [] => ret isValid
  | field :: rest =>
      let* ok := validateField field in
      forEach_validate rest (if negb ok then false else isValid)
  end.

(** ['input[required], select[required], textarea[required]'] *)
Definition requiredSelector (f : field) : bool := required f.

Definition validateForm : M bool :=
  let* st := get in
  let requiredFields := querySelectorAll requiredSelector st in
  forEach_validate requiredFields true.

Definition showNotification (message type : jsstring) : M unit :=
  modify (fun st =>
    Page (form st) (submitButton st) (originalButtonText st)
         (body st ++ [Notification message type])
         (successModal st) (console st) (network st) (pending st)).

Definition q : jsstring := [34%N].
Definition nl : jsstring := [10%N].
Definition attr (k v : string) : jsstring := js k ++ js "=" ++ q ++ js v ++ q.

(** The template literal of [setLoadingState] (lines 528-534). *)
Definition busyHTML : jsstring :=
  nl ++ js "        <svg " ++ attr "class" "animate-spin" ++ js " "
     ++ attr "width" "20" ++ js " " ++ attr "height" "20" ++ js " "
     ++ attr "viewBox" "0 0 24 24" ++ js " " ++ attr "fill" "none" ++ js ">"
  ++ nl ++ js "          <circle " ++ attr "cx" "12" ++ js " "
     ++ attr "cy" "12" ++ js " " ++ attr "r" "10" ++ js " "
     ++ attr "stroke" "currentColor" ++ js " " ++ attr "stroke-width" "4"
     ++ js " " ++ attr "stroke-opacity" "0.3" ++ js "/>"
  ++ nl ++ js "          <path " ++ attr "fill" "currentColor" ++ js " "
     ++ attr "d" "M12 2v4a8 8 0 0 1 0 16v4c6.627 0 12-5.373 12-12S18.627 2 12 2z"
     ++ js "/>"
  ++ nl ++ js "        </svg>"
  ++ nl ++ js "        <span>Processing...</span>"
  ++ nl ++ js "      ".

Definition setLoadingState (isLoading : bool) : M unit :=
  modify (fun st =>
    match submitButton st with
    | None => st
    | Some _ =>
        if isLoading then with_button (Some (Button true busyHTML)) st
        else with_button (Some (Button false (originalButtonText st))) st
    end).

Definition showSuccessModal : M unit :=
  modify (fun st =>
    Page (form st) (submitButton st) (originalButtonText st) (body st)
         (match successModal st with Some _ => Some true | None => None end)
         (console st) (network st) (pending st)).

(** [this.form.reset()] *)
Definition reset : M unit :=
  modify (with_form (List.map (fun g =>
    Group (List.map reset_field (controls g)) (fieldErrors g)))).

Definition console_error (label reason : jsstring) : M unit :=
  modify (fun st =>
    Page (form st) (submitButton st) (originalButtonText st) (body st)
         (successModal st) (console st ++ [(label, reason)])
         (network st) (pending st)).

(** Setting a property of an object that keeps insertion order. *)
Fixpoint set_prop (k : jsstring) (v : jsvalue) (o : object) : object :=
  match o with
  | [] => [(k, v)]
  | (k', v') :: o' =>
      if strict_eq k k' then (k, v) :: o' else (k', v') :: set_prop k v o'
  end.

Definition is_checkable (f : field) : bool :=
  match tagName f with
  | input => strict_eq (type f) (js "checkbox") || strict_eq (type f) (js "radio")
  | _ => false
  end.

(** Inputs that are buttons; without a submitter none of them gives an
    entry. *)
Definition is_button (f : field) : bool :=
  match tagName f with
  | input => strict_eq (type f) (js "submit") || strict_eq (type f) (js "reset")
             || strict_eq (type f) (js "button") || strict_eq (type f) (js "image")
  | _ => false
  end.

Definition is_file (f : field) : bool :=
  match tagName f with
  | input => strict_eq (type f) (js "file")
  | _ => false
  end.

Definition ascii_lower (c : N) : N :=
  if ((65 <=? c) && (c <=? 90))%N then (c + 32)%N else c.

(** A hidden input named [_charset_], in any case of the letters. *)
Definition is_charset (f : field) : bool :=
  match tagName f with
  | input => strict_eq (type f) (js "hidden")
             && strict_eq (List.map ascii_lower (name f)) (js "_charset_")
  | _ => false
  end.

Definition is_high_surrogate (c : N) : bool := ((55296 <=? c) && (c <=? 56319))%N.
Definition is_low_surrogate (c : N) : bool := ((56320 <=? c) && (c <=? 57343))%N.

(** Conversion to a scalar value string: a surrogate outside a pair
    becomes U+FFFD. *)
Fixpoint toUSV (s : jsstring) : jsstring :=
  match s with
  | [] => []
  | c :: s' =>
      if is_high_surrogate c then
        match s' with
        | d :: s'' =>
            if is_low_surrogate d then c :: d :: toUSV s''
            else 65533%N :: toUSV s'
        | [] => [65533%N]
        end
      else if is_low_surrogate c then 65533%N :: toUSV s'
      else c :: toUSV s'
  end.

(** The controls that give an entry: not disabled, no button, of the
    checkboxes and radio buttons the checked ones, and with a name. *)
Definition gives_entry (f : field) : bool :=
  negb (is_disabled f) && negb (is_button f)
  && (if is_checkable f then checked f else true)
  && truthy (name f).

Definition entry_of (f : field) : jsstring * jsvalue :=
  (toUSV (name f),
   if is_file f then VFile
   else if is_charset f then VStr (js "UTF-8")
   else VStr (toUSV (value f))).

(** The entry list of [new FormData(form)], as the HTML standard
    constructs it for inputs, selects and textareas.  A select is taken
    to have one selected option, whose value is its [value]; [dirname]
    attributes and [datalist] ancestors are outside the model. *)
Definition formData (st : page) : list (jsstring * jsvalue) :=
  List.map entry_of (List.filter gives_entry (all_fields st)).

(** [Object.fromEntries]: of several entries of one name the last one
    stays. *)
Definition fromEntries (es : list (jsstring * jsvalue)) : object :=
  fold_left (fun o e => set_prop e.1 e.2 o) es [].

(** ['input[type="checkbox"]:checked'] *)
Definition checkedCheckbox (f : field) : bool :=
  match tagName f with
  | input => strict_eq (type f) (js "checkbox") && checked f
  | _ => false
  end.

(** The [data] object that the [try] block of [handleSubmit] builds. *)
Definition collect (st : page) : object :=
  let data := fromEntries (formData st) in
  let creditIssues := List.map value (List.filter checkedCheckbox (all_fields st)) in
  set_prop (js "creditIssues") (VArr creditIssues) data.

(** The call of [submitToAPI]: it is recorded, and its promise is
    pending until the environment settles it. *)
Definition submitToAPI (data : object) : M unit :=
  modify (fun st =>
    Page (form st) (submitButton st) (originalButtonText st) (body st)
         (successModal st) (console st) (network st ++ [data])
         (S (pending st))).

(** [handleSubmit] up to its [await]. *)
Definition handleSubmit_begin : M unit :=
  (* Validate form *)
  let* ok := validateForm in
  if negb ok then
    showNotification (js "Please fix the errors above") (js "error")
  else
    (* Show loading state *)
    setLoadingState true >>
    let* st := get in
    let data := collect st in
    submitToAPI data.

(** The awaited promise is taken off the pending ones. *)
Definition settled : M unit :=
  modify (fun st =>
    Page (form st) (submitButton st) (originalButtonText st) (body st)
         (successModal st) (console st) (network st) (pred (pending st))).

(** [handleSubmit] from its [await] on: the rest of the [try] block or
    the [catch] block, and then the [finally] block. *)
Definition handleSubmit_resume (o : outcome) : M unit :=
  settled >>
  match o with
  | Fulfilled =>
      (* Show success *)
      showSuccessModal >> reset
  | Rejected error =>
      console_error (js "Form submission error:") error >>
      showNotification (js "Something went wrong. Please try again.") (js "error")
  end >>
  setLoadingState false.

(** [handleSubmit], when nothing else happens between the call of
    [submitToAPI] and the moment its promise settles as [o]. *)
Definition handleSubmit (o : outcome) : M unit :=
  (* Validate form *)
  let* ok := validateForm in
  if negb ok then
    showNotification (js "Please fix the errors above") (js "error")
  else
    (* Show loading state *)
    setLoadingState true >>
    let* st := get in
    let data := collect st in
    submitToAPI data >>
    handleSubmit_resume o.

(** ['input[name="phone"]'] *)
Definition phoneSelector (f : field) : bool :=
  match tagName f with
  | input => strict_eq (name f) (js "phone")
  | _ => false
  end.

(** What the event loop delivers to the handler. *)
Inductive event : Type :=
| Submit                          (* 'submit' on the form *)
| Settle (o : outcome)            (* a pending call settles *)
| Blur (r : ref)                  (* 'blur' on a control *)
| Input (r : ref) (v : jsstring). (* the user edits a control *)

Definition is_required (r : ref) (st : page) : bool :=
  match get_field r st with Some f => required f | None => false end.

(** The listeners of [init], [setupValidation] and
    [setupPhoneFormatting], in the order they were attached. *)
Definition step (e : event) : M unit :=
  let* st := get in
  match e with
  | Submit => handleSubmit_begin
  | Settle o =>
      match pending st with
      | O => ret tt
      | S _ => handleSubmit_resume o
      end
  | Blur r =>
      if is_required r st then validateField r >> ret tt else ret tt
  | Input r v =>
      modify (with_form (alter (alter_field (set_value v) r.2) r.1)) >>
      (if is_required r st then clearFieldError r else ret tt) >>
      (if decide (querySelector phoneSelector st = Some r)
       then modify (with_form (alter (alter_field
              (fun f => set_value (formatPhoneNumber (value f)) f) r.2) r.1))
       else ret tt)
  end.

Fixpoint run (es : list event) : M unit :=
  match es with
  | [] => ret tt
  | e :: es' => step e >> run es'
  end.

End FormHandler.
Export FormHandler.

(** * Definitions used by the statements *)

Definition digitCount (s : jsstring) : nat := length (stripNonDigits s).

(** The grouping of a string of digits, as the specification words it:
    punctuation at the digit counts three and six. *)
Definition grouped (ds : jsstring) : jsstring :=
  if length ds <=? 3 then ds
  else if length ds <=? 6 then js "(" ++ take 3 ds ++ js ") " ++ drop 3 ds
  else js "(" ++ take 3 ds ++ js ") " ++ take 3 (drop 3 ds)
          ++ js "-" ++ drop 6 ds.

(** The verdict and the message that [validateField] computes for a
    control: the three checks in the order of the source, a later one
    overwriting the message of an earlier one. *)
Definition verdict (f : field) : bool * jsstring :=
  let v := trim (value f) in
  let r0 := (true, js "") in
  let r1 := if required f && negb (truthy v)
            then (false, js "This field is required") else r0 in
  let r2 := if strict_eq (type f) (js "email") && truthy v && negb (isValidEmail v)
            then (false, js "Please enter a valid email address") else r1 in
  if strict_eq (name f) (js "phone") && truthy v
  then if negb (test phoneRegex v)
       then (false, js "Please enter a valid phone number") else r2
  else r2.

Definition fieldValid (f : field) : bool := (verdict f).1.

Definition errorText (f : field) : jsstring := (verdict f).2.

(** What one validation does to the parent of the control at index [i]. *)
Definition annotate (f : field) (i : nat) (g : group) : group :=
  Group (alter (set_errorClass (negb (fieldValid f))) i (controls g))
        (drop 1 (fieldErrors g) ++ (if fieldValid f then [] else [errorText f])).

(** What [validateForm] leaves on a control and on the messages of its
    parent: only required controls are visited. *)
Definition mark (f : field) : field :=
  if required f then set_errorClass (negb (fieldValid f)) f else f.

Definition errstep (es : list jsstring) (f : field) : list jsstring :=
  if required f
  then drop 1 es ++ (if fieldValid f then [] else [errorText f])
  else es.

Definition validated (g : group) : group :=
  Group (List.map mark (controls g)) (fold_left errstep (controls g) (fieldErrors g)).

Definition passes (f : field) : bool := implb (required f) (fieldValid f).

Definition set_form (F : list group) (st : page) : page := with_form (fun _ => F) st.

Definition sample_button : button := Button false (js "Get Started").

Definition sample_page (gs : list group) : page :=
  Page gs (Some sample_button) (js "Get Started") [] (Some false) [] [] 0.

Definition control (ty nm : string) (req : bool) (v : string) : field :=
  Field input (js ty) (js nm) req (js v) (js "") false false false false.

(** A required name, filled in, and an optional e-mail address that is
    not one. *)
Definition page_optional_email : page :=
  sample_page [Group [control "text" "name" true "Ann"] [];
               Group [control "email" "email" false "bad"] []].

(** The set of controls the specification has [validateAll] check. *)
Definition spec_checked (f : field) : bool :=
  required f
  || ((strict_eq (type f) (js "email") || strict_eq (name f) (js "phone"))
      && truthy (value f)).

Definition spec_validateAll (st : page) : bool :=
  forallb (fun f => implb (spec_checked f) (fieldValid f)) (all_fields st).

Definition page_empty_required : page :=
  sample_page [Group [control "text" "name" true ""] []].

(** No parent holds more than one [.field-error] element.  This holds of
    a page whose markup has none, and every listener keeps it (see
    [tidy_step] below). *)
Definition tidy (st : page) : bool :=
  forallb (fun g => length (fieldErrors g) <=? 1) (form st).

Definition page_two_invalid : page :=
  sample_page [Group [control "text" "name" true ""] [];
               Group [control "email" "email" true "a@b"] []].

Definition fixErrors : notification :=
  Notification (js "Please fix the errors above") (js "error").

Definition wentWrong : notification :=
  Notification (js "Something went wrong. Please try again.") (js "error").

Definition page_one_empty : page :=
  sample_page [Group [control "text" "name" true ""] [];
               Group [control "email" "email" true "x@y.com"] []].

Definition page_valid : page :=
  sample_page [Group [control "text" "name" true "Ann"] [];
               Group [control "email" "email" true "x@y.com"] [];
               Group [control "tel" "phone" true "(555) 123-4567"] []].

(** A valid required control under a parent that already holds two
    messages; the listeners never produce this from markup without
    messages. *)
Definition page_stale_messages : page :=
  sample_page [Group [control "text" "name" true "Ann"]
                     [js "first"; js "second"]].

(** Two required controls under one parent, the first one empty. *)
Definition page_shared_parent : page :=
  sample_page [Group [control "text" "first" true "";
                      control "text" "last" true "Lee"] []].

(** * Definitions for the further properties *)

(** A piece fits an atom: the count is allowed and every character is in
    the class. *)
Definition fits (a : atom) (c : jsstring) : Prop :=
  lo a <= length c
  /\ (forall h, hi a = Some h -> length c <= h)
  /\ forallb (in_class (cls a)) c = true.


(** A character allowed in the parts of an address: [[^\s@]]. *)
Definition email_char (c : N) : bool := negb (is_space c) && negb (c =? 64)%N.

(** A required name that holds two spaces. *)
Definition page_blank_name : page :=
  sample_page [Group [control "text" "name" true "  "] []].

(** Reading a property of an object: [o[k]]. *)
Definition get_prop (k : jsstring) (o : object) : option jsvalue :=
  snd <$> List.find (fun e => strict_eq k e.1) o.

(** A form with two controls of one name, a checked and an unchecked
    checkbox, a checked checkbox that is disabled, a control without a
    name, a disabled control and a submit input. *)
Definition page_checkboxes : page :=
  sample_page
    [Group [control "text" "name" true "Ann"] [];
     Group [control "text" "name" false "Bea"] [];
     Group [Field input (js "checkbox") (js "issue") false (js "late")
                  (js "late") true false false false;
            Field input (js "checkbox") (js "issue") false (js "debt")
                  (js "debt") false false false false;
            Field input (js "checkbox") (js "issue") false (js "fees")
                  (js "fees") true false false true] [];
     Group [control "text" "" false "lost"] [];
     Group [Field input (js "text") (js "code") false (js "K7") (js "")
                  false false false true] [];
     Group [Field input (js "submit") (js "send") false (js "Send")
                  (js "Send") false false false false] []].

(** What no listener changes in a control: its tag, type, name, required
    flag and defaults, and the error class of a control that is not
    required. *)
Definition fixed_part (f : field)
    : tag * jsstring * jsstring * bool * jsstring * bool * option bool :=
  (tagName f, type f, name f, required f, defaultValue f, defaultChecked f,
   if required f then None else Some (errorClass f)).

Definition skeleton (st : page) : list (list _) :=
  List.map (fun g => List.map fixed_part (controls g)) (form st).

(** The page with one empty required control, after that control lost
    the focus. *)
Definition page_after_blur : page :=
  exec (step (Blur (0, 0))) page_empty_required.

(** ** debounce and throttle (script.js, lines 13-39) *)

Module Timing.

(** What happens to a wrapped function: it is called with arguments, or
    the timer that the wrapper set expires. *)
Inductive tick (A : Type) : Type :=
| Call (args : A)
| Fire.
Arguments Call {A} args.
Arguments Fire {A}.

(** [debounce(func, wait)]: [timeout] is the pending timer, with the
    arguments its [later] closure captured; [invoked] lists the calls of
    [func]. *)
Record debounced (A : Type) : Type := Debounced {
  timeout : option A;
  invoked : list A
}.
Arguments Debounced {A} timeout invoked.
Arguments timeout {A} d.
Arguments invoked {A} d.

Definition debounce_step {A : Type} (e : tick A) (s : debounced A) : debounced A :=
  match e with
  | Call args =>
      (* clearTimeout(timeout); timeout = setTimeout(later, wait) *)
      Debounced (Some args) (invoked s)
  | Fire =>
      (* later: clearTimeout(timeout); func(...args) *)
      match timeout s with
      | Some args => Debounced None (invoked s ++ [args])
      | None => s
      end
  end.

Definition debounce_run {A : Type} (es : list (tick A)) (s : debounced A) : debounced A :=
  fold_left (fun s e => debounce_step e s) es s.

(** [throttle(func, limit)]: the flag, and the calls of [func]. *)
Record throttled (A : Type) : Type := Throttled {
  inThrottle : bool;
  ran : list A
}.
Arguments Throttled {A} inThrottle ran.
Arguments inThrottle {A} t.
Arguments ran {A} t.

Definition throttle_step {A : Type} (e : tick A) (s : throttled A) : throttled A :=
  match e with
  | Call args =>
      if negb (inThrottle s)
      then (* func.apply(context, args); inThrottle = true; setTimeout(...) *)
        Throttled true (ran s ++ [args])
      else s
  | Fire =>
      (* () => inThrottle = false *)
      Throttled false (ran s)
  end.

Definition throttle_run {A : Type} (es : list (tick A)) (s : throttled A) : throttled A :=
  fold_left (fun s e => throttle_step e s) es s.

(** The calls that are directly followed by the expiry of the timer. *)
Fixpoint settled_calls {A : Type} (es : list (tick A)) : list A :=
  match es with
  | Call a :: (Fire :: _) as rest => a :: settled_calls rest
  | _ :: rest => settled_calls rest
  | [] => []
  end.

(** The arguments of the calls, cut where a timer expires. *)
Fixpoint segments {A : Type} (es : list (tick A)) : list (list A) :=
  match es with
  | [] => [[]]
  | Fire :: rest => [] :: segments rest
  | Call a :: rest =>
      match segments rest with
      | seg :: segs => (a :: seg) :: segs
      | [] => [[a]]
      end
  end.

Definition calls {A : Type} (es : list (tick A)) : list A :=
  concat (segments es).

End Timing.

(** ** FAQAccordion.toggleItem (script.js, lines 259-281) *)

Module Accordion.

(** The items of [this.faqItems], each with its class [active]. *)
Definition toggleItem (item : nat) (faqItems : list bool) : list bool :=
  match faqItems !! item with
  | None => faqItems        (* listeners exist for the items only *)
  | Some isActive =>
      (* Close all other items *)
      let others := imap (fun otherItem active =>
                            if decide (otherItem <> item) then false else active)
                         faqItems in
      (* Toggle current item *)
      <[item := negb isActive]> others
  end.

Definition open_items (faqItems : list bool) : nat :=
  length (List.filter id faqItems).

End Accordion.

(** ** KeyboardNavigation.handleFAQNavigation (script.js, lines 1515-1541) *)

Module Keyboard.

Local Open Scope Z_scope.

(** [faqItems[i].focus()]: outside the array the element is undefined
    and the call throws. *)
Inductive effect : Type :=
| Focus (i : Z)
| TypeError.

Definition focus_item (n : nat) (i : Z) : effect :=
  if (0 <=? i) && (i <? Z.of_nat n) then Focus i else TypeError.

(** [n] is [faqItems.length], [currentIndex] what [indexOf] returned.
    [None]: no case of the switch matches, nothing is done; otherwise
    the default action was prevented. *)
Definition handleFAQNavigation (n : nat) (currentIndex : Z) (key : jsstring)
    : option effect :=
  if strict_eq key (js "ArrowDown") then
    Some (match n with
          | O => TypeError     (* x % 0 is NaN *)
          | S _ => focus_item n (Z.rem (currentIndex + 1) (Z.of_nat n))
          end)
  else if strict_eq key (js "ArrowUp") then
    Some (focus_item n (if 0 <? currentIndex then currentIndex - 1
                        else Z.of_nat n - 1))
  else if strict_eq key (js "Home") then
    Some (focus_item n 0)
  else if strict_eq key (js "End") then
    Some (focus_item n (Z.of_nat n - 1))
  else None.

(** The index of the focused question after a key, when the key was
    pressed on the question of index [current]. *)
Definition press (n : nat) (key : jsstring) (current : Z) : Z :=
  match handleFAQNavigation n current key with
  | Some (Focus i) => i
  | _ => current
  end.

End Keyboard.

(** ** MobileNavigation (script.js, lines 103-197) *)

Module Nav.

(** [#navMenu]: its class [active] and the three inline styles that
    [updateMenuState] and its timers write. *)
Record menu : Type := Menu {
  active : bool;
  display : jsstring;
  opacity : jsstring;
  transform : jsstring
}.

(** The closures that [updateMenuState] hands to [setTimeout]: the one of
    the opening branch (10 ms) and the one of the closing branch
    (300 ms). *)
Inductive task : Type := ShowMenu | HideMenu.

Record nav : Type := Nav {
  isOpen : bool;
  hamburger : option bool;      (* #mobileToggle: has class 'active' *)
  navMenu : option menu;
  overflow : jsstring;          (* document.body.style.overflow *)
  timers : list task            (* set and not yet expired, oldest first *)
}.

Definition updateMenuState (st : nav) : nav :=
  let hamburger' :=
    match hamburger st with Some _ => Some (isOpen st) | None => None end in
  let '(navMenu', timers') :=
    match navMenu st with
    | Some m =>
        if isOpen st
        then (Some (Menu (isOpen st) (js "flex") (opacity m) (transform m)),
              timers st ++ [ShowMenu])
        else (Some (Menu (isOpen st) (display m) (js "0") (js "translateY(-20px)")),
              timers st ++ [HideMenu])
    | None => (None, timers st)
    end in
  Nav (isOpen st) hamburger' navMenu'
      (if isOpen st then js "hidden" else js "") timers'.

Definition set_isOpen (b : bool) (st : nav) : nav :=
  Nav b (hamburger st) (navMenu st) (overflow st) (timers st).

Definition toggleMenu (st : nav) : nav :=
  updateMenuState (set_isOpen (negb (isOpen st)) st).

Definition openMenu (st : nav) : nav := updateMenuState (set_isOpen true st).

Definition closeMenu (st : nav) : nav := updateMenuState (set_isOpen false st).

(** [inside] is [e.target.closest('.nav-container')] being an element. *)
Definition handleOutsideClick (inside : bool) (st : nav) : nav :=
  if isOpen st && negb inside then closeMenu st else st.

Definition handleResize (innerWidth : Z) (st : nav) : nav :=
  if (1024 <=? innerWidth)%Z then
    let st' := closeMenu st in
    Nav (isOpen st') (hamburger st') (navMenu st') (js "") (timers st')
  else st.

Definition run_task (t : task) (st : nav) : nav :=
  match navMenu st with
  | None => st
  | Some m =>
      let m' := match t with
                | ShowMenu => Menu (active m) (display m) (js "1") (js "translateY(0)")
                | HideMenu => Menu (active m) (js "none") (opacity m) (transform m)
                end in
      Nav (isOpen st) (hamburger st) (Some m') (overflow st) (timers st)
  end.

Inductive event : Type :=
| HamburgerClick                 (* toggleMenu *)
| LinkClick                      (* closeMenu *)
| DocumentClick (inside : bool)  (* handleOutsideClick *)
| Resize (innerWidth : Z)        (* the debounced handleResize runs *)
| Timer (k : nat).               (* the k-th pending timer expires *)

Definition step (e : event) (st : nav) : nav :=
  match e with
  | HamburgerClick => toggleMenu st
  | LinkClick => closeMenu st
  | DocumentClick inside => handleOutsideClick inside st
  | Resize w => handleResize w st
  | Timer k =>
      match timers st !! k with
      | Some t =>
          run_task t (Nav (isOpen st) (hamburger st) (navMenu st) (overflow st)
                          (delete k (timers st)))
      | None => st
      end
  end.

Definition run (es : list event) (st : nav) : nav :=
  fold_left (fun st e => step e st) es st.

(** The classes and the scroll lock agree with [isOpen]. *)
Definition synced (st : nav) : Prop :=
  (forall b, hamburger st = Some b -> b = isOpen st)
  /\ (forall m, navMenu st = Some m -> active m = isOpen st)
  /\ overflow st = (if isOpen st then js "hidden" else js "").

End Nav.

(** ** ModalManager (script.js, lines 588-642) *)

Module Modal.

Record element : Type := Element {
  elementId : jsstring;
  isModal : bool;          (* has class 'modal' *)
  active : bool            (* has class 'active' *)
}.

(** The elements in document order, and [document.body.style.overflow].
    The focus that [openModal] moves is outside the model. *)
Record doc : Type := Doc {
  elements : list element;
  overflow : jsstring
}.

Definition set_active (b : bool) (e : element) : element :=
  Element (elementId e) (isModal e) b.

(** [closeModal(modal)], for an element of the page or [null]. *)
Definition closeModal (modal : option nat) (d : doc) : doc :=
  match modal with
  | Some k => Doc (alter (set_active false) k (elements d)) (js "")
  | None => d
  end.

Fixpoint find_index {A : Type} (p : A -> bool) (l : list A) : option nat :=
  match l with
  | [] => None
  | x :: l' => if p x then Some 0 else S <$> find_index p l'
  end.

Definition getElementById (i : jsstring) (d : doc) : option nat :=
  find_index (fun e => strict_eq (elementId e) i) (elements d).

Definition openModal (modalId : jsstring) (d : doc) : doc :=
  match getElementById modalId d with
  | Some k => Doc (alter (set_active true) k (elements d)) (js "hidden")
  | None => d
  end.

(** The keydown listener of [init], for [e.key]. *)
Definition keydown (key : jsstring) (d : doc) : doc :=
  if strict_eq key (js "Escape") then
    match find_index (fun e => isModal e && active e) (elements d) with
    | Some activeModal => closeModal (Some activeModal) d
    | None => d
    end
  else d.

Definition open_modals (d : doc) : nat :=
  length (List.filter (fun e => isModal e && active e) (elements d)).

End Modal.

(** ** The goals textarea (script.js, lines 1074-1090 and 1235-1258) *)

Module Prefill.

Fixpoint startsWith (s t : jsstring) {struct t} : bool :=
  match t, s with
  | [], _ => true
  | c :: t', d :: s' => (c =? d)%N && startsWith s' t'
  | _ :: _, [] => false
  end.

(** [s.includes(t)] *)
Fixpoint includes (s t : jsstring) : bool :=
  startsWith s t
  || match s with
     | [] => false
     | _ :: s' => includes s' t
     end.

(** [card.querySelector('h3')?.textContent || fallback] *)
Definition textOr (h3 : option jsstring) (fallback : jsstring) : jsstring :=
  match h3 with
  | Some t => if truthy t then t else fallback
  | None => fallback
  end.

Definition serviceText (h3 : option jsstring) : jsstring :=
  js "I'm interested in " ++ textOr h3 (js "Service") ++ js ". ".

(** A textarea keeps the text it was given, its raw value; reading
    [textarea.value] gives that text with its newlines normalised: every
    pair U+000D U+000A becomes one U+000A, and every U+000D left becomes
    U+000A.  Writing [textarea.value] replaces the raw value. *)
Fixpoint normalizeNewlines (s : jsstring) : jsstring :=
  match s with
  | [] => []
  | c :: t =>
    if (c =? 13)%N then
      10%N :: match t with
              | d :: u => if (d =? 10)%N then normalizeNewlines u
                          else normalizeNewlines t
              | [] => []
              end
    else c :: normalizeNewlines t
  end.

(** No code unit of [s] is a carriage return. *)
Definition noCR (s : jsstring) : bool := forallb (fun c => negb (c =? 13)%N) s.

(** The timer callback of [handleServiceClick], on the raw value of
    [textarea[name="goals"]]; the result is the raw value afterwards. *)
Definition servicePrefill (h3 : option jsstring) (raw : jsstring) : jsstring :=
  let currentValue := normalizeNewlines raw in
  let serviceText := serviceText h3 in
  if negb (includes currentValue serviceText)
  then serviceText ++ currentValue
  else raw.

Definition planText (h3 : option jsstring) : jsstring :=
  js "I'm interested in the " ++ textOr h3 (js "Selected Plan")
     ++ js " credit repair package. Please contact me with more details.".

(** The timer callback of [handlePricingClick], on the raw value. *)
Definition pricingPrefill (h3 : option jsstring) (raw : jsstring) : jsstring :=
  if negb (truthy (normalizeNewlines raw)) then planText h3 else raw.

End Prefill.

(** A heading with a carriage return in it, as the character reference
    [&#13;] gives one. *)
Definition heading_with_CR : option jsstring :=
  Some (js "Credit" ++ [13%N] ++ js "Repair").

(** A required e-mail control whose address has spaces around it. *)
Definition page_padded_email : page :=
  sample_page [Group [control "email" "email" true " a@b.co "] []].

(** The menu, open, with no timer pending. *)
Definition nav_open : Nav.nav :=
  Nav.Nav true (Some true)
    (Some (Nav.Menu true (js "flex") (js "1") (js "translateY(0)")))
    (js "hidden") [].

(** Two active modals while the body scroll is locked. *)
Definition doc_two_modals : Modal.doc :=
  Modal.Doc [Modal.Element (js "successModal") true true;
             Modal.Element (js "infoModal") true true] (js "hidden").

(** An element that is active without being a modal, before two active
    modals. *)
Definition doc_three_elements : Modal.doc :=
  Modal.Doc [Modal.Element (js "banner") false true;
             Modal.Element (js "successModal") true true;
             Modal.Element (js "infoModal") true true] (js "hidden").

(** * Properties *)

(** ** The matcher *)

Section Matcher.

Lemma span_le k s : span k s <= length s.
Proof. induction s as [|c s IH]; simpl; [lia|]. destruct (in_class k c); simpl; lia. Qed.

Lemma span_all k s : forallb (in_class k) s = true -> span k s = length s.
Proof.
  induction s as [|c s IH]; simpl; [done|].
  intros [Hc Hs]%andb_prop. rewrite Hc, IH; done.
Qed.

Lemma greedy_le_length a s : greedy a s <= length s.
Proof.
  unfold greedy. pose proof (span_le (cls a) s).
  destruct (hi a); lia.
Qed.

Lemma greedy_le_hi a s h : hi a = Some h -> greedy a s <= h.
Proof. unfold greedy. intros ->. lia. Qed.

(** The first attempt succeeds when the rest of the pattern accepts what
    the greedy count leaves. *)
Lemma try_down_first n low rest s caps :
  low <= n -> rest (drop n s) = Some caps ->
  try_down n low rest s = Some (take n s :: caps).
Proof.
  intros Hlow Hrest. destruct n; simpl; rewrite ?Hrest.
  - destruct low; [done|lia].
  - destruct (Nat.ltb_spec (S n) low); [lia|done].
Qed.

(** A successful attempt gave the atom some count between [low] and [n]. *)
Lemma try_down_sound n low rest s caps' :
  try_down n low rest s = Some caps' ->
  exists k caps, k <= n /\ low <= k /\ rest (drop k s) = Some caps
                 /\ caps' = take k s :: caps.
Proof.
  induction n as [|n IH]; simpl.
  - destruct (Nat.ltb_spec 0 low); [done|].
    destruct (rest (drop 0 s)) as [caps|] eqn:E; [|done].
    intros [= <-]. exists 0, caps. repeat split; try lia; done.
  - destruct (Nat.ltb_spec (S n) low); [done|].
    destruct (rest (drop (S n) s)) as [caps|] eqn:E.
    + intros [= <-]. exists (S n), caps. repeat split; try lia; done.
    + intros (k & caps & ? & ? & ? & ?)%IH. exists k, caps.
      repeat split; try lia; done.
Qed.

(** What a match returns: one piece per atom, the pieces make up the
    subject, and no piece is longer than its atom allows. *)
Lemma match_seq_sound p : forall s caps,
  match_seq p s = Some caps ->
  s = concat caps /\
  Forall2 (fun a c => lo a <= length c /\
                      forall h, hi a = Some h -> length c <= h) p caps.
Proof.
  induction p as [|a p IH]; intros s caps; simpl.
  - destruct s; [|done]. intros [= <-]. split; [done|constructor].
  - intros (k & caps0 & Hk & Hlo & Hrest & ->)%try_down_sound.
    apply IH in Hrest as [Hcat Hall].
    pose proof (greedy_le_length a s).
    split.
    + simpl. rewrite <- Hcat. symmetry. apply take_drop.
    + constructor; [|done]. rewrite length_take. split; [lia|].
      intros h Hh. pose proof (greedy_le_hi a s h Hh). lia.
Qed.

End Matcher.

(** ** formatPhoneNumber *)

Lemma stripNonDigits_digits s : forallb is_digit (stripNonDigits s) = true.
Proof.
  unfold stripNonDigits. induction s as [|c s IH]; simpl; [done|].
  destruct (is_digit c) eqn:E; simpl; rewrite ?E; done.
Qed.

Lemma stripNonDigits_id s : forallb is_digit s = true -> stripNonDigits s = s.
Proof.
  unfold stripNonDigits. induction s as [|c s IH]; simpl; [done|].
  intros [Hc Hs]%andb_prop. rewrite Hc, IH; done.
Qed.

Lemma stripNonDigits_app s t :
  stripNonDigits (s ++ t) = stripNonDigits s ++ stripNonDigits t.
Proof. apply List.filter_app. Qed.

Lemma forallb_take {A} (p : A -> bool) n (s : list A) :
  forallb p s = true -> forallb p (take n s) = true.
Proof.
  revert n; induction s as [|c s IH]; intros [|n]; simpl; try done.
  intros [Hc Hs]%andb_prop. rewrite Hc; simpl; auto.
Qed.

Lemma forallb_drop {A} (p : A -> bool) n (s : list A) :
  forallb p s = true -> forallb p (drop n s) = true.
Proof.
  revert n; induction s as [|c s IH]; intros [|n]; simpl; try done.
  intros [Hc Hs]%andb_prop. auto.
Qed.

(** A group of at most [n] digits in front of a pattern: on a string of
    digits, the greedy count is kept when the rest of the pattern accepts
    what it leaves. *)
Lemma match_upto_digits n p t caps :
  forallb is_digit t = true ->
  match_seq p (drop n t) = Some caps ->
  match_seq (upto n digit :: p) t = Some (take n t :: caps).
Proof.
  intros Ht Hrest.
  change (match_seq (upto n digit :: p) t)
    with (try_down (greedy (upto n digit) t) 0 (match_seq p) t).
  unfold greedy; simpl. rewrite (span_all digit t Ht).
  destruct (Nat.le_ge_cases n (length t)) as [Hle|Hge].
  - rewrite Nat.min_l by done.
    apply try_down_first; [lia|done].
  - rewrite Nat.min_r by done.
    rewrite (take_ge t n) by done. rewrite (drop_ge t n) in Hrest by done.
    rewrite <- (firstn_all t) at 3.
    apply try_down_first; [lia|]. by rewrite drop_all.
Qed.

(** On at most ten digits the three groups take three, three and the
    rest, without backtracking. *)
Lemma phoneGroups_match ds :
  forallb is_digit ds = true -> length ds <= 10 ->
  match_seq phoneGroups ds
  = Some [take 3 ds; take 3 (drop 3 ds); drop 6 ds].
Proof.
  intros Hd Hlen. unfold phoneGroups.
  assert (Hlast : take 4 (drop 3 (drop 3 ds)) = drop 6 ds).
  { rewrite drop_drop. apply take_ge. rewrite length_drop. lia. }
  rewrite <- Hlast.
  repeat (apply match_upto_digits; [by repeat apply forallb_drop|]).
  simpl. rewrite !drop_drop, drop_ge by lia. done.
Qed.

(** More than ten digits: the anchored pattern has no match. *)
Lemma phoneGroups_no_match ds :
  10 < length ds -> match_seq phoneGroups ds = None.
Proof.
  intros Hlen. destruct (match_seq phoneGroups ds) as [caps|] eqn:E; [|done].
  apply match_seq_sound in E as [-> Hall]. exfalso.
  unfold phoneGroups in Hall.
  repeat match goal with
         | H : Forall2 _ (_ :: _) _ |- _ =>
             apply Forall2_cons_inv_l in H as (? & ? & [_ ?] & ? & ->)
         | H : Forall2 _ [] _ |- _ => apply Forall2_nil_inv_l in H as ->
         end.
  simpl in Hlen. rewrite !length_app in Hlen. simpl in Hlen.
  repeat match goal with
         | H : forall h, hi (upto ?n _) = Some h -> _ |- _ =>
             specialize (H n eq_refl)
         end.
  lia.
Qed.

Lemma truthy_length s : truthy s = (0 <? length s).
Proof. by destruct s. Qed.

Lemma format_upto_ten s :
  digitCount s <= 10 -> formatPhoneNumber s = grouped (stripNonDigits s).
Proof.
  unfold digitCount, formatPhoneNumber, grouped. intros Hlen.
  pose proof (stripNonDigits_digits s) as Hd.
  set (ds := stripNonDigits s) in *.
  rewrite (phoneGroups_match ds Hd Hlen). cbv zeta.
  rewrite !truthy_length, length_take, !length_drop.
  destruct (Nat.leb_spec (length ds) 3) as [H3|H3].
  - replace (0 <? _) with false by (symmetry; apply Nat.ltb_ge; lia).
    simpl. by apply take_ge.
  - replace (0 <? 3 `min` _) with true by (symmetry; apply Nat.ltb_lt; lia).
    simpl negb. cbv iota.
    destruct (Nat.leb_spec (length ds) 6) as [H6|H6].
    + replace (0 <? _) with false by (symmetry; apply Nat.ltb_ge; lia).
      simpl. rewrite (take_ge (drop 3 ds)) by (rewrite length_drop; lia).
      done.
    + replace (0 <? _) with true by (symmetry; apply Nat.ltb_lt; lia).
      done.
Qed.

Lemma format_over_ten s : 10 < digitCount s -> formatPhoneNumber s = s.
Proof.
  unfold digitCount, formatPhoneNumber. intros Hlen.
  by rewrite (phoneGroups_no_match _ Hlen).
Qed.

(** Grouping adds punctuation only: the digits stay, in order. *)
Lemma grouped_digits ds :
  forallb is_digit ds = true -> stripNonDigits (grouped ds) = ds.
Proof.
  intros Hd. unfold grouped.
  pose proof (forallb_take is_digit 3 ds Hd) as H1.
  pose proof (forallb_drop is_digit 3 ds Hd) as H2.
  pose proof (forallb_take is_digit 3 _ H2) as H3.
  pose proof (forallb_drop is_digit 6 ds Hd) as H4.
  destruct (length ds <=? 3); [by apply stripNonDigits_id|].
  destruct (length ds <=? 6).
  - rewrite !stripNonDigits_app, (stripNonDigits_id _ H1), (stripNonDigits_id _ H2).
    simpl. apply take_drop.
  - rewrite !stripNonDigits_app, (stripNonDigits_id _ H1),
      (stripNonDigits_id _ H3), (stripNonDigits_id _ H4).
    simpl. change 6 with (3 + 3). rewrite <- drop_drop.
    by rewrite !take_drop.
Qed.

Example email_accepts : isValidEmail (js "a@b.co") = true.
Proof. reflexivity. Qed.

(** The dot is found by backtracking out of the greedy second class. *)
Example email_backtracks : isValidEmail (js "a@b.c.d") = true.
Proof. reflexivity. Qed.

Example email_rejects :
  isValidEmail (js "a@b") = false /\ isValidEmail (js "a.com") = false
  /\ isValidEmail (js "") = false /\ isValidEmail (js "a b@c.d") = false
  /\ isValidEmail (js "a@@b.co") = false.
Proof. repeat split; reflexivity. Qed.

Example phoneRegex_accepts : test phoneRegex (js "(555) 123-4567") = true.
Proof. reflexivity. Qed.

Example phoneRegex_rejects :
  test phoneRegex (js "(555) 123-456") = false
  /\ test phoneRegex (js "5551234567") = false.
Proof. split; reflexivity. Qed.

Example trim_both : trim (js "  a b  ") = js "a b".
Proof. reflexivity. Qed.

Example format_555 : formatPhoneNumber (js "555") = js "555".
Proof. reflexivity. Qed.

Example format_5551 : formatPhoneNumber (js "5551") = js "(555) 1".
Proof. reflexivity. Qed.

Example format_5551234 : formatPhoneNumber (js "5551234") = js "(555) 123-4".
Proof. reflexivity. Qed.

Example format_full :
  formatPhoneNumber (js "555-123.4567") = js "(555) 123-4567".
Proof. reflexivity. Qed.

Example format_no_digit : formatPhoneNumber (js "abc") = js "".
Proof. reflexivity. Qed.

(** C2, as stated, fails twice: three digits come back bare, without
    the parentheses of the specification's example, and an input of
    eleven digits keeps all eleven. *)
Lemma format_not_always_grouped_or_truncated :
  formatPhoneNumber (js "555") <> js "(555) "
  /\ digitCount (formatPhoneNumber (js "12345678901")) = 11.
Proof. split; [discriminate | reflexivity]. Qed.

(** C2 (amended): for every input with at most ten digits,
    [formatPhoneNumber] returns exactly those digits, in order, grouped
    as (AAA) BBB-CCCC with partial groups: up to three digits are
    returned bare, four to six as "(AAA) B..", seven to ten as
    "(AAA) BBB-C..". *)
Theorem format_groups_upto_ten (s : jsstring) :
  digitCount s <= 10 ->
  formatPhoneNumber s = grouped (stripNonDigits s)
  /\ stripNonDigits (formatPhoneNumber s) = stripNonDigits s
  /\ digitCount (formatPhoneNumber s) <= 10.
Proof.
  intros Hlen. pose proof (format_upto_ten s Hlen) as Hf.
  assert (Hd : stripNonDigits (formatPhoneNumber s) = stripNonDigits s).
  { rewrite Hf. apply grouped_digits, stripNonDigits_digits. }
  repeat split; [done..|]. unfold digitCount in *. by rewrite Hd.
Qed.

Lemma format_groups_upto_ten_witness :
  digitCount (js "5551234") <= 10
  /\ formatPhoneNumber (js "5551234") = js "(555) 123-4".
Proof.
  assert (H : digitCount (js "5551234") <= 10) by (vm_compute; lia).
  split; [exact H|].
  exact (eq_trans (proj1 (format_groups_upto_ten (js "5551234") H)) eq_refl).
Defined.

(** C9: [formatPhoneNumber] is idempotent on every string. *)
Theorem formatPhoneNumber_idempotent (s : jsstring) :
  formatPhoneNumber (formatPhoneNumber s) = formatPhoneNumber s.
Proof.
  destruct (Nat.le_gt_cases (digitCount s) 10) as [Hle|Hgt].
  - pose proof (format_upto_ten s Hle) as Hf.
    assert (Hd : stripNonDigits (formatPhoneNumber s) = stripNonDigits s).
    { rewrite Hf. apply grouped_digits, stripNonDigits_digits. }
    rewrite (format_upto_ten (formatPhoneNumber s)).
    + rewrite Hd. by symmetry.
    + unfold digitCount in *. by rewrite Hd.
  - by rewrite !(format_over_ten s Hgt).
Qed.

(** C10: an input with more than ten digit characters is returned as it
    is, without punctuation and without truncation. *)
Theorem format_over_ten_unchanged (s : jsstring) :
  10 < digitCount s -> formatPhoneNumber s = s.
Proof. apply format_over_ten. Qed.

Lemma format_over_ten_unchanged_witness :
  10 < digitCount (js "(555) 123-45678")
  /\ formatPhoneNumber (js "(555) 123-45678") = js "(555) 123-45678".
Proof.
  assert (H : 10 < digitCount (js "(555) 123-45678")) by (vm_compute; lia).
  split; [exact H|]. exact (format_over_ten_unchanged _ H).
Defined.

(** ** validateField *)

Lemma with_form_with_form f g st :
  with_form f (with_form g st) = with_form (f ∘ g) st.
Proof. done. Qed.

Lemma set_errorClass_twice a b f :
  set_errorClass a (set_errorClass b f) = set_errorClass a f.
Proof. done. Qed.

Lemma validateField_run r st f :
  get_field r st = Some f ->
  validateField r st
  = (fieldValid f, with_form (alter (annotate f r.2) r.1) st).
Proof.
  intros Hf. unfold validateField, bind, get. rewrite Hf.
  unfold annotate, fieldValid, errorText, verdict.
  unfold clearFieldError, showFieldError, modify, ret.
  destruct (required f && negb (truthy (trim (value f))));
    destruct (strict_eq (type f) (js "email") && truthy (trim (value f))
              && negb (isValidEmail (trim (value f))));
    destruct (strict_eq (name f) (js "phone") && truthy (trim (value f)));
    destruct (negb (test phoneRegex (trim (value f))));
    cbn [negb fst snd]; f_equal;
    rewrite ?with_form_with_form; unfold with_form; f_equal; cbn [form compose];
    rewrite ?list_alter_alter_eq; apply list_alter_ext; try done;
    intros g _; unfold alter_errors, alter_field, compose; cbn [controls fieldErrors];
    rewrite ?list_alter_alter_eq; f_equal;
    try (apply list_alter_ext; done); by rewrite ?app_nil_r.
Qed.

Lemma validateField_missing r st :
  get_field r st = None -> validateField r st = (true, st).
Proof. intros Hf. unfold validateField, bind, get. by rewrite Hf. Qed.

(** ** validateForm *)

Lemma forEach_validate_app rs rs' acc st :
  forEach_validate (rs ++ rs') acc st
  = let (b, st') := forEach_validate rs acc st in forEach_validate rs' b st'.
Proof.
  revert acc st. induction rs as [|r rs IH]; intros acc st; simpl; [done|].
  unfold bind. destruct (validateField r st) as [ok st1]. apply IH.
Qed.

Lemma insert_after_alter {A} (f : A -> A) (x : A) i (l : list A) :
  <[i := x]> (alter f i l) = <[i := x]> l.
Proof.
  rewrite !list_insert_alter, list_alter_alter_eq. by apply list_alter_ext.
Qed.

(** The required controls of one parent, from the control after [seen]. *)
Lemma validate_parent g cs : forall seen es acc st,
  form st !! g = Some (Group (seen ++ cs) es) ->
  forEach_validate (select_in requiredSelector g (length seen) cs) acc st
  = (acc && forallb passes cs,
     set_form (<[g := Group (seen ++ List.map mark cs) (fold_left errstep cs es)]> (form st)) st).
Proof.
  induction cs as [|f cs IH]; intros seen es acc st Hg.
  - simpl. rewrite andb_true_r. unfold ret. f_equal.
    rewrite list_insert_id by done. by destruct st.
  - assert (Hlen : g < length (form st)) by (eapply lookup_lt_Some; done).
    cbn [select_in]. unfold requiredSelector at 1, passes at 1.
    cbn [forallb List.map fold_left]. unfold mark at 1, errstep at 2.
    destruct (required f) eqn:Hreq.
    + cbn [app forEach_validate]. unfold bind at 1.
      rewrite (validateField_run (g, length seen) st f).
      2:{ unfold get_field; cbn [fst snd]. rewrite Hg. cbn [controls].
          by rewrite list_lookup_middle. }
      cbn [fst snd].
      replace (S (length seen))
        with (length (seen ++ [set_errorClass (negb (fieldValid f)) f]))
        by (by rewrite length_app, Nat.add_1_r).
      rewrite (IH (seen ++ [set_errorClass (negb (fieldValid f)) f])
                  (drop 1 es ++ (if fieldValid f then [] else [errorText f]))).
      2:{ cbn [form with_form]. rewrite list_lookup_alter_eq, Hg.
          unfold annotate; cbn [fmap option_fmap option_map controls fieldErrors].
          do 2 f_equal. rewrite <- (Nat.add_0_r (length seen)), alter_app_r.
          by rewrite <- app_assoc. }
      f_equal.
      * destruct (fieldValid f), acc; done.
      * unfold set_form, with_form; cbn [form]. f_equal.
        rewrite insert_after_alter. by rewrite <- app_assoc.
    + cbn [app].
      replace (S (length seen)) with (length (seen ++ [f]))
        by (by rewrite length_app, Nat.add_1_r).
      rewrite (IH (seen ++ [f]) es) by (by rewrite <- app_assoc).
      by rewrite <- app_assoc.
Qed.

Lemma validate_parents gs : forall seen acc st,
  form st = seen ++ gs ->
  forEach_validate (select_from requiredSelector (length seen) gs) acc st
  = (acc && forallb passes (concat (List.map controls gs)),
     set_form (seen ++ List.map validated gs) st).
Proof.
  induction gs as [|grp gs IH]; intros seen acc st Hform.
  - simpl. rewrite andb_true_r. unfold ret. f_equal.
    unfold set_form, with_form. rewrite <- Hform. by destruct st.
  - cbn [select_from List.map concat]. rewrite forEach_validate_app.
    rewrite (validate_parent (length seen) (controls grp) [] (fieldErrors grp)).
    2:{ rewrite Hform, list_lookup_middle by done. by destruct grp. }
    cbn [app length].
    replace (S (length seen)) with (length (seen ++ [validated grp]))
      by (by rewrite length_app, Nat.add_1_r).
    rewrite (IH (seen ++ [validated grp])).
    2:{ unfold set_form; cbn [with_form form]. rewrite Hform.
        rewrite <- (Nat.add_0_r (length seen)), insert_app_r.
        by rewrite <- app_assoc. }
    f_equal.
    + by rewrite forallb_app, andb_assoc.
    + by rewrite <- app_assoc.
Qed.

(** [validateForm] in closed form: the result is the conjunction over
    the required controls, and every parent is left [validated]. *)
Lemma validateForm_run st :
  validateForm st
  = (forallb passes (all_fields st), set_form (List.map validated (form st)) st).
Proof.
  unfold validateForm, bind, get, querySelectorAll.
  exact (validate_parents (form st) [] true st eq_refl).
Qed.

Lemma mark_inputs f :
  required (mark f) = required f /\ fieldValid (mark f) = fieldValid f
  /\ errorText (mark f) = errorText f /\ value (mark f) = value f.
Proof. unfold mark. by destruct (required f) eqn:E. Qed.

Lemma passes_mark f : passes (mark f) = passes f.
Proof.
  unfold passes. destruct (mark_inputs f) as (-> & -> & _). done.
Qed.

Lemma all_fields_validated gs :
  concat (List.map controls (List.map validated gs))
  = List.map mark (concat (List.map controls gs)).
Proof.
  induction gs as [|g gs IH]; simpl; [done|].
  by rewrite IH, List.map_app.
Qed.

Lemma forallb_map {A B} (p : B -> bool) (f : A -> B) l :
  forallb p (List.map f l) = forallb (fun x => p (f x)) l.
Proof. induction l as [|x l IH]; simpl; [done|]. by rewrite IH. Qed.

Lemma forallb_ext' {A} (p q : A -> bool) l :
  (forall x, p x = q x) -> forallb p l = forallb q l.
Proof. intros H. induction l as [|x l IH]; simpl; [done|]. by rewrite H, IH. Qed.

(** The controls of the form are those that a reference reaches. *)
Lemma all_fields_get_field st f :
  In f (all_fields st) <-> exists r, get_field r st = Some f.
Proof.
  unfold all_fields, get_field. rewrite in_concat. split.
  - intros (cs & Hcs & Hf). apply in_map_iff in Hcs as (g & <- & Hg).
    apply list_elem_of_In, list_elem_of_lookup in Hg as [i Hi].
    apply list_elem_of_In, list_elem_of_lookup in Hf as [j Hj].
    exists (i, j). simpl. by rewrite Hi.
  - intros [[i j] H]. simpl in H.
    destruct (form st !! i) as [g|] eqn:Hi; [|done].
    exists (controls g). split.
    + apply in_map, list_elem_of_In. by eapply list_elem_of_lookup_2.
    + apply list_elem_of_In. by eapply list_elem_of_lookup_2.
Qed.

Lemma eval_validateForm st :
  eval validateForm st = forallb passes (all_fields st).
Proof. unfold eval. by rewrite validateForm_run. Qed.

Lemma exec_validateForm st :
  exec validateForm st = set_form (List.map validated (form st)) st.
Proof. unfold exec. by rewrite validateForm_run. Qed.

Lemma get_field_validated r st :
  get_field r (exec validateForm st) = mark <$> get_field r st.
Proof.
  rewrite exec_validateForm. unfold get_field, set_form; cbn [with_form form].
  change (List.map validated (form st)) with (validated <$> form st).
  rewrite list_lookup_fmap. destruct (form st !! r.1) as [g|]; [|done].
  cbn [fmap option_fmap option_map validated controls].
  change (List.map mark (controls g)) with (mark <$> controls g).
  by rewrite list_lookup_fmap.
Qed.

(** ** C3: what validateForm checks *)

(** C3, as stated, fails: an optional e-mail control with a malformed,
    non-empty value is not visited.  [validateForm] answers true and
    leaves the control without annotation, although [validateField] on
    that control answers false. *)
Lemma validateForm_skips_optional_email :
  eval validateForm page_optional_email = true
  /\ eval (validateField (1, 0)) page_optional_email = false
  /\ spec_validateAll page_optional_email = false
  /\ exec validateForm page_optional_email = page_optional_email.
Proof. repeat split; vm_compute; reflexivity. Qed.

(** C3 (amended): [validateForm] runs [validateField] over the required
    controls only, and answers true exactly when each of them is valid;
    a control that is not required is left as it was, whatever its type,
    name and value. *)
Theorem validateForm_checks_required (st : page) :
  (eval validateForm st = true <->
   forall r f, get_field r st = Some f -> required f = true ->
               eval (validateField r) st = true)
  /\ (forall r f, get_field r st = Some f -> required f = false ->
                  get_field r (exec validateForm st) = Some f).
Proof.
  split.
  - rewrite eval_validateForm, forallb_forall. split.
    + intros H r f Hf Hreq. unfold eval. rewrite (validateField_run r st f Hf).
      assert (Hin : In f (all_fields st)) by (apply all_fields_get_field; eauto).
      apply H in Hin. unfold passes in Hin. by rewrite Hreq in Hin.
    + intros H f [r Hf]%all_fields_get_field. unfold passes.
      destruct (required f) eqn:Hreq; [|done]. simpl.
      specialize (H r f Hf Hreq). unfold eval in H.
      by rewrite (validateField_run r st f Hf) in H.
  - intros r f Hf Hreq. rewrite get_field_validated, Hf. simpl.
    unfold mark. by rewrite Hreq.
Qed.

Lemma validateForm_checks_required_witness :
  required (control "email" "email" false "bad") = false
  /\ get_field (1, 0) (exec validateForm page_optional_email)
     = Some (control "email" "email" false "bad").
Proof.
  split; [reflexivity|].
  exact (proj2 (validateForm_checks_required page_optional_email)
               (1, 0) _ eq_refl eq_refl).
Defined.

(** ** C4: the effect of validateField *)

(** C4, as stated, fails: [validateField] writes to the page.  On an
    empty required control it adds the class and appends a message. *)
Lemma validateField_writes_page :
  exec (validateField (0, 0)) page_empty_required <> page_empty_required
  /\ form (exec (validateField (0, 0)) page_empty_required)
     = [Group [set_errorClass true (control "text" "name" true "")]
              [js "This field is required"]]
  /\ errorClass <$> get_field (0, 0) page_empty_required = Some false
  /\ errorClass <$> get_field (0, 0)
                      (exec (validateField (0, 0)) page_empty_required)
     = Some true
  /\ fieldErrors <$> form page_empty_required = [[]]
  /\ fieldErrors <$> form (exec (validateField (0, 0)) page_empty_required)
     = [[js "This field is required"]].
Proof. split; [discriminate|]. repeat split; reflexivity. Qed.

(** The verdict depends on four properties of the control only. *)
Lemma verdict_inputs f f' :
  required f' = required f -> type f' = type f -> name f' = name f ->
  value f' = value f -> verdict f' = verdict f.
Proof. unfold verdict. by intros -> -> -> ->. Qed.

(** C4 (amended): the result of [validateField] is a function of the
    control's required flag, type, name and value alone; the call is not
    free of effects: it sets the control's error class to the negated
    result and leaves the control's other properties as they are,
    removes the first message under the control's parent and, on an
    invalid value, appends the new message there.  Every other control
    and the rest of the page (button, notifications, dialog, console,
    calls made and pending) stay as they are. *)
Theorem validateField_effect (r : ref) (st : page) (f : field) :
  get_field r st = Some f ->
  let st' := exec (validateField r) st in
  eval (validateField r) st = fieldValid f
  /\ (forall r2 st2 f2, get_field r2 st2 = Some f2 ->
        required f2 = required f -> type f2 = type f ->
        name f2 = name f -> value f2 = value f ->
        eval (validateField r2) st2 = eval (validateField r) st)
  /\ (exists f', get_field r st' = Some f'
        /\ errorClass f' = negb (fieldValid f)
        /\ tagName f' = tagName f /\ type f' = type f /\ name f' = name f
        /\ required f' = required f /\ value f' = value f
        /\ defaultValue f' = defaultValue f /\ checked f' = checked f
        /\ defaultChecked f' = defaultChecked f
        /\ is_disabled f' = is_disabled f)
  /\ (forall g, form st !! r.1 = Some g ->
        fieldErrors <$> form st' !! r.1
        = Some (drop 1 (fieldErrors g)
                ++ (if fieldValid f then [] else [errorText f])))
  /\ (forall r', r' <> r -> get_field r' st' = get_field r' st)
  /\ submitButton st' = submitButton st /\ body st' = body st
  /\ successModal st' = successModal st /\ console st' = console st
  /\ network st' = network st /\ pending st' = pending st.
Proof.
  intros Hf st'. subst st'. unfold exec, eval.
  rewrite (validateField_run r st f Hf). cbn [fst snd with_form form].
  destruct r as [i j]. unfold get_field in *. cbn [fst snd form] in *.
  destruct (form st !! i) as [g|] eqn:Hg; [|done].
  split; [done|]. split.
  { intros r2 st2 f2 Hf2 H1 H2 H3 H4.
    rewrite (validateField_run r2 st2 f2 Hf2). cbn [fst].
    unfold fieldValid. by rewrite (verdict_inputs f f2). }
  split.
  { exists (Field (tagName f) (type f) (name f) (required f) (value f)
                  (defaultValue f) (checked f) (defaultChecked f)
                  (negb (fieldValid f)) (is_disabled f)).
    split; [|by cbn].
    cbn [form with_form]. rewrite list_lookup_alter_eq, Hg. cbn.
    by rewrite list_lookup_alter_eq, Hf. }
  split.
  { intros g0 [= <-]. by rewrite list_lookup_alter_eq, Hg. }
  split.
  { intros [i' j'] Hne. cbn [fst snd form with_form].
    destruct (decide (i = i')) as [<-|Hi].
    + rewrite list_lookup_alter_eq, Hg. cbn.
      rewrite list_lookup_alter_ne; [done|]. congruence.
    + by rewrite list_lookup_alter_ne. }
  by cbn.
Qed.

Lemma validateField_effect_witness :
  get_field (0, 0) page_empty_required = Some (control "text" "name" true "")
  /\ eval (validateField (0, 0)) page_empty_required = false
  /\ body (exec (validateField (0, 0)) page_empty_required) = [].
Proof.
  assert (H : get_field (0, 0) page_empty_required
              = Some (control "text" "name" true "")) by reflexivity.
  pose proof (validateField_effect (0, 0) page_empty_required _ H) as E.
  split; [exact H|]. split; [exact (proj1 E)|].
  exact (proj1 (proj2 (proj2 (proj2 (proj2 (proj2 (proj2 E))))))).
Defined.

(** ** C8: validating twice *)

Section Messages.

Lemma errstep_mark es f : errstep es (mark f) = errstep es f.
Proof.
  unfold errstep. destruct (mark_inputs f) as (-> & -> & -> & _). done.
Qed.

Lemma fold_errstep_mark cs : forall es,
  fold_left errstep (List.map mark cs) es = fold_left errstep cs es.
Proof.
  induction cs as [|f cs IH]; intros es; simpl; [done|].
  by rewrite errstep_mark, IH.
Qed.

Lemma errstep_short es f : length es <= 1 -> length (errstep es f) <= 1.
Proof.
  intros H. unfold errstep. destruct (required f); [|done].
  rewrite length_app, length_drop. destruct (fieldValid f); simpl; lia.
Qed.

Lemma fold_errstep_short cs : forall es,
  length es <= 1 -> length (fold_left errstep cs es) <= 1.
Proof.
  induction cs as [|f cs IH]; intros es H; simpl; [done|].
  by apply IH, errstep_short.
Qed.

(** Once a required control was visited, the messages that were there
    before do not matter any more. *)
Lemma fold_errstep_forgets cs : forall es es',
  length es <= 1 -> length es' <= 1 -> existsb required cs = true ->
  fold_left errstep cs es = fold_left errstep cs es'.
Proof.
  induction cs as [|f cs IH]; intros es es' H H' Hex; simpl in *; [done|].
  unfold errstep at 2 4. destruct (required f); simpl in Hex.
  - by rewrite !drop_ge by done.
  - by apply IH.
Qed.

Lemma fold_errstep_none cs : forall es,
  existsb required cs = false -> fold_left errstep cs es = es.
Proof.
  induction cs as [|f cs IH]; intros es Hex; simpl in *; [done|].
  apply orb_false_elim in Hex as [Hf Hcs].
  unfold errstep at 2. rewrite Hf. by apply IH.
Qed.

Lemma fold_errstep_twice cs es :
  length es <= 1 ->
  fold_left errstep cs (fold_left errstep cs es) = fold_left errstep cs es.
Proof.
  intros H. destruct (existsb required cs) eqn:Hex.
  - apply fold_errstep_forgets; [|done..]. by apply fold_errstep_short.
  - by rewrite !fold_errstep_none.
Qed.

Lemma mark_twice f : mark (mark f) = mark f.
Proof. unfold mark. by destruct (required f) eqn:E; simpl; rewrite ?E. Qed.

Lemma validated_twice g :
  length (fieldErrors g) <= 1 -> validated (validated g) = validated g.
Proof.
  intros H. unfold validated; cbn [controls fieldErrors]. f_equal.
  - rewrite List.map_map. apply List.map_ext, mark_twice.
  - by rewrite fold_errstep_mark, fold_errstep_twice.
Qed.

Lemma tidy_spec st :
  tidy st = true <-> forall g, In g (form st) -> length (fieldErrors g) <= 1.
Proof.
  unfold tidy. rewrite forallb_forall.
  split; intros H g Hg; specialize (H g Hg); by apply Nat.leb_le.
Qed.

End Messages.

Lemma validated_form_twice st :
  tidy st = true ->
  exec validateForm (exec validateForm st) = exec validateForm st.
Proof.
  intros Htidy. pose proof (proj1 (tidy_spec st) Htidy) as Hshort.
  rewrite !exec_validateForm. unfold set_form, with_form; cbn [form].
  destruct st as [F b o n m c nw p]; cbn [form] in *. f_equal.
  rewrite List.map_map. apply List.map_ext_in.
  intros g Hg. by apply validated_twice, Hshort.
Qed.

Lemma validated_verdict st :
  eval validateForm (exec validateForm st) = eval validateForm st.
Proof.
  rewrite !eval_validateForm, exec_validateForm.
  unfold all_fields, set_form; cbn [with_form form].
  rewrite all_fields_validated, forallb_map.
  apply forallb_ext', passes_mark.
Qed.

(** Where the parents of the controls do not contain one another and
    none holds more than one message, [validateForm] called twice in a
    row gives the page and the answer that one call gives: no message is
    added and none is removed by the second call. *)
Theorem validateForm_twice (st : page) :
  tidy st = true ->
  exec validateForm (exec validateForm st) = exec validateForm st
  /\ eval validateForm (exec validateForm st) = eval validateForm st.
Proof.
  intros Htidy. split; [by apply validated_form_twice|apply validated_verdict].
Qed.

Lemma validateForm_twice_witness :
  tidy page_two_invalid = true
  /\ exec validateForm (exec validateForm page_two_invalid)
     = exec validateForm page_two_invalid
  /\ fieldErrors <$> form (exec validateForm page_two_invalid)
     = [[js "This field is required"];
        [js "Please enter a valid email address"]].
Proof.
  assert (H : tidy page_two_invalid = true) by reflexivity.
  split; [exact H|]. split; [exact (proj1 (validateForm_twice _ H))|].
  reflexivity.
Defined.

(** C8: [validateForm] is not idempotent on the page.  Where the
    markup holds two messages under the parent of a valid required
    control, the values stay as they are and both calls answer true, yet
    the first call removes the first message and the second call removes
    the other: the page after the second call is not the page after the
    first.  [clearFieldError] takes whatever [.field-error] it finds
    first under the parent, and only one. *)
Theorem validateForm_twice_stale :
  List.map value (all_fields (exec validateForm page_stale_messages))
  = List.map value (all_fields page_stale_messages)
  /\ eval validateForm page_stale_messages = true
  /\ eval validateForm (exec validateForm page_stale_messages) = true
  /\ fieldErrors <$> form page_stale_messages = [[js "first"; js "second"]]
  /\ fieldErrors <$> form (exec validateForm page_stale_messages)
     = [[js "second"]]
  /\ fieldErrors <$> form (exec validateForm
                             (exec validateForm page_stale_messages))
     = [[]]
  /\ exec validateForm (exec validateForm page_stale_messages)
     <> exec validateForm page_stale_messages.
Proof. do 6 (split; [reflexivity|]). discriminate. Qed.

(** ** handleSubmit *)

Lemma handleSubmit_begin_run st :
  exec handleSubmit_begin st
  = let st1 := exec validateForm st in
    if eval validateForm st
    then let st2 := exec (setLoadingState true) st1 in
         exec (submitToAPI (collect st2)) st2
    else exec (showNotification (js "Please fix the errors above") (js "error")) st1.
Proof.
  unfold exec, eval, handleSubmit_begin, bind.
  destruct (validateForm st) as [[] st1]; done.
Qed.

Lemma handleSubmit_run o st :
  exec (handleSubmit o) st
  = if eval validateForm st
    then exec (handleSubmit_resume o) (exec handleSubmit_begin st)
    else exec handleSubmit_begin st.
Proof.
  unfold exec, eval, handleSubmit, handleSubmit_begin, bind.
  destruct (validateForm st) as [[] st1]; done.
Qed.

Lemma setLoadingState_frame b st :
  let st' := exec (setLoadingState b) st in
  form st' = form st /\ body st' = body st /\ network st' = network st
  /\ pending st' = pending st /\ successModal st' = successModal st
  /\ console st' = console st /\ originalButtonText st' = originalButtonText st.
Proof.
  unfold exec, setLoadingState, modify; simpl.
  destruct (submitButton st), b; done.
Qed.

Lemma setLoadingState_button b st btn :
  submitButton st = Some btn ->
  submitButton (exec (setLoadingState b) st)
  = Some (if b then Button true busyHTML
          else Button false (originalButtonText st)).
Proof.
  unfold exec, setLoadingState, modify; simpl. intros ->. by destruct b.
Qed.

(** The message of a control stays under its parent when no required
    control comes after it there. *)
Lemma fold_errstep_last cs j f es :
  cs !! j = Some f -> required f = true -> fieldValid f = false ->
  (forall k f', j < k -> cs !! k = Some f' -> required f' = false) ->
  errorText f ∈ fold_left errstep cs es.
Proof.
  intros Hj Hreq Hbad Hlast.
  rewrite <- (take_drop_middle cs j f Hj), fold_left_app. cbn [fold_left].
  rewrite fold_errstep_none.
  - unfold errstep. rewrite Hreq, Hbad. apply elem_of_app. right.
    apply list_elem_of_singleton. done.
  - destruct (existsb required (drop (S j) cs)) eqn:E; [|done].
    apply existsb_exists in E as (f' & Hin & Hf').
    apply list_elem_of_In, list_elem_of_lookup in Hin as [k Hk].
    rewrite lookup_drop in Hk.
    rewrite (Hlast (S j + k) f') in Hf'; [done|lia|done].
Qed.

(** When [validateForm] answers false, [handleSubmit] ends there:
    [submitToAPI] is not called and nothing is awaited, the notification
    "Please fix the errors above" of type error is appended, and every
    required control that failed carries the error class.  Where the
    parents of the controls do not contain one another, the message of
    such a control stands under its parent when no required control
    follows it there.  The handler returns normally. *)
Theorem submit_invalid (st : page) (o : outcome) :
  eval validateForm st = false ->
  let st' := exec handleSubmit_begin st in
  exec (handleSubmit o) st = st'
  /\ network st' = network st /\ pending st' = pending st
  /\ body st' = body st ++ [fixErrors]
  /\ submitButton st' = submitButton st
  /\ successModal st' = successModal st
  /\ (exists r f, get_field r st = Some f /\ required f = true
                  /\ fieldValid f = false)
  /\ (forall r f, get_field r st = Some f -> required f = true ->
        fieldValid f = false ->
        (exists f', get_field r st' = Some f' /\ errorClass f' = true
                    /\ value f' = value f)
        /\ ((forall k f', r.2 < k -> get_field (r.1, k) st = Some f' ->
                          required f' = false) ->
            exists g, form st' !! r.1 = Some g /\ errorText f ∈ fieldErrors g)).
Proof.
  intros Hbad st'. subst st'.
  rewrite handleSubmit_run, handleSubmit_begin_run, Hbad. cbv zeta.
  rewrite exec_validateForm.
  unfold exec, showNotification, modify, set_form; cbn [snd with_form form
    body network pending submitButton successModal].
  do 6 (split; [done|]). split.
  - rewrite eval_validateForm in Hbad.
    assert (Hex : existsb (fun f => negb (passes f)) (all_fields st) = true).
    { induction (all_fields st) as [|f l IH]; simpl in *; [done|].
      destruct (passes f); simpl in *; auto. }
    apply existsb_exists in Hex as (f & [r Hr]%all_fields_get_field & Hf).
    exists r, f. unfold passes in Hf.
    destruct (required f), (fieldValid f); done.
  - intros r f Hf Hreq Hinv.
    pose proof (get_field_validated r st) as Hg.
    rewrite exec_validateForm, Hf in Hg. unfold get_field in Hf, Hg.
    cbn [set_form with_form form] in Hg. unfold get_field; cbn [form].
    split.
    + rewrite Hg. simpl. unfold mark. rewrite Hreq, Hinv.
      eexists. split; [done|]. by cbn.
    + intros Hlast. unfold get_field in Hlast. cbn [fst snd] in Hlast.
      change (List.map validated (form st)) with (validated <$> form st).
      rewrite list_lookup_fmap.
      destruct (form st !! r.1) as [g|]; [|done].
      exists (validated g). split; [done|]. cbn [validated fieldErrors].
      by eapply fold_errstep_last.
Qed.

Lemma submit_invalid_witness :
  eval validateForm page_one_empty = false
  /\ network (exec (handleSubmit Fulfilled) page_one_empty) = []
  /\ body (exec handleSubmit_begin page_one_empty) = [fixErrors].
Proof.
  assert (H : eval validateForm page_one_empty = false) by reflexivity.
  pose proof (submit_invalid page_one_empty Fulfilled H) as E.
  split; [exact H|]. split.
  - exact (eq_trans (f_equal network (proj1 E)) (proj1 (proj2 E))).
  - exact (proj1 (proj2 (proj2 (proj2 E)))).
Defined.

(** C5: an invalid submit does not always show the message of an
    offending control.  Where two required controls share a parent, the
    first empty and the second filled in, the submit makes no call and
    awaits nothing, appends the notification and sets the error class on
    the empty control, but no message stands under the parent: the
    validation of the second control took away the message of the
    first, since [clearFieldError] removes the [.field-error] it finds
    under the parent, whichever control it was shown for. *)
Theorem message_removed_by_sibling :
  eval validateForm page_shared_parent = false
  /\ network (exec (handleSubmit Fulfilled) page_shared_parent) = []
  /\ pending (exec (handleSubmit Fulfilled) page_shared_parent) = 0
  /\ body (exec (handleSubmit Fulfilled) page_shared_parent) = [fixErrors]
  /\ List.map (fun g => List.map (fun f => (name f, fieldValid f, errorClass f))
                                 (controls g))
              (form (exec (handleSubmit Fulfilled) page_shared_parent))
     = [[(js "first", false, true); (js "last", true, false)]]
  /\ fieldErrors <$> form (exec (validateField (0, 0)) page_shared_parent)
     = [[js "This field is required"]]
  /\ fieldErrors <$> form (exec (handleSubmit Fulfilled) page_shared_parent)
     = [[]].
Proof. repeat split; reflexivity. Qed.

Lemma resume_frame o st :
  let st' := exec (handleSubmit_resume o) st in
  network st' = network st /\ pending st' = pred (pending st)
  /\ originalButtonText st' = originalButtonText st
  /\ forall b, submitButton st = Some b ->
               submitButton st' = Some (Button false (originalButtonText st)).
Proof.
  unfold exec, handleSubmit_resume, bind, settled, setLoadingState,
    showSuccessModal, reset, console_error, showNotification, modify.
  destruct o; cbn; destruct (submitButton st); repeat split; intros; done.
Qed.

Lemma begin_frame st :
  eval validateForm st = true ->
  let st' := exec handleSubmit_begin st in
  form st' = List.map validated (form st)
  /\ body st' = body st /\ successModal st' = successModal st
  /\ originalButtonText st' = originalButtonText st
  /\ pending st' = S (pending st)
  /\ network st' = network st ++ [collect (exec validateForm st)]
  /\ forall b, submitButton st = Some b ->
               submitButton st' = Some (Button true busyHTML).
Proof.
  intros Hok. rewrite handleSubmit_begin_run, Hok. cbv zeta.
  rewrite exec_validateForm.
  unfold exec, submitToAPI, setLoadingState, modify, set_form, collect,
    all_fields.
  cbn. destruct (submitButton st); repeat split; intros; done.
Qed.

(** The payload does not depend on the annotations of validation. *)
Lemma collect_validated st : collect (exec validateForm st) = collect st.
Proof.
  rewrite exec_validateForm.
  unfold collect, formData, all_fields, set_form; cbn [with_form form].
  rewrite all_fields_validated.
  assert (Hmf : forall {B} (h : field -> B) p (l : list field),
            (forall f, h (mark f) = h f) -> (forall f, p (mark f) = p f) ->
            List.map h (List.filter p (List.map mark l))
            = List.map h (List.filter p l)).
  { intros B h p l Hh Hp. induction l as [|f l IH]; simpl; [done|].
    rewrite Hp. destruct (p f); simpl; by rewrite ?Hh, IH. }
  assert (Hm : forall f, tagName (mark f) = tagName f /\ type (mark f) = type f
                         /\ name (mark f) = name f /\ value (mark f) = value f
                         /\ checked (mark f) = checked f
                         /\ is_disabled (mark f) = is_disabled f).
  { intros f. unfold mark. by destruct (required f). }
  rewrite !Hmf; try done; intros f;
    unfold checkedCheckbox, gives_entry, entry_of, is_checkable, is_button,
      is_file, is_charset;
    destruct (Hm f) as (E1 & E2 & E3 & E4 & E5 & E6);
    by rewrite ?E1, ?E2, ?E3, ?E4, ?E5, ?E6.
Qed.

Lemma begin_keeps_verdict st :
  eval validateForm st = true ->
  eval validateForm (exec handleSubmit_begin st) = true.
Proof.
  intros Hok. rewrite eval_validateForm. unfold all_fields.
  rewrite (proj1 (begin_frame st Hok)), all_fields_validated, forallb_map.
  rewrite (forallb_ext' _ _ _ passes_mark). by rewrite eval_validateForm in Hok.
Qed.

(** ** C6: the trigger control *)

(** C6: a submission that passed validation disables the button and
    shows the busy label until the call settles; whether the promise is
    fulfilled or rejected, the [finally] block enables the button again
    and puts back the label it had at construction.  This holds of the
    continuation in whatever page it resumes. *)
Theorem button_restored (st : page) (b : button) (o : outcome) :
  submitButton st = Some b ->
  eval validateForm st = true ->
  submitButton (exec handleSubmit_begin st) = Some (Button true busyHTML)
  /\ exec (handleSubmit o) st
     = exec (handleSubmit_resume o) (exec handleSubmit_begin st)
  /\ submitButton (exec (handleSubmit o) st)
     = Some (Button false (originalButtonText st))
  /\ (forall st' b', submitButton st' = Some b' ->
        submitButton (exec (handleSubmit_resume o) st')
        = Some (Button false (originalButtonText st'))).
Proof.
  intros Hb Hok.
  destruct (begin_frame st Hok) as (_ & _ & _ & Horig & _ & _ & Hbusy).
  specialize (Hbusy b Hb).
  split; [done|]. split; [by rewrite handleSubmit_run, Hok|]. split.
  - rewrite handleSubmit_run, Hok.
    destruct (resume_frame o (exec handleSubmit_begin st)) as (_ & _ & _ & Hr).
    rewrite (Hr _ Hbusy). by rewrite Horig.
  - intros st' b' Hb'. destruct (resume_frame o st') as (_ & _ & _ & Hr).
    exact (Hr b' Hb').
Qed.

Lemma button_restored_witness :
  submitButton page_valid = Some sample_button
  /\ eval validateForm page_valid = true
  /\ submitButton (exec (handleSubmit (Rejected (js "offline"))) page_valid)
     = Some (Button false (js "Get Started")).
Proof.
  assert (Hb : submitButton page_valid = Some sample_button) by reflexivity.
  assert (Hok : eval validateForm page_valid = true) by reflexivity.
  split; [exact Hb|]. split; [exact Hok|].
  exact (proj1 (proj2 (proj2
    (button_restored page_valid sample_button (Rejected (js "offline")) Hb Hok)))).
Defined.

(** ** C7: a rejected call *)

Lemma all_fields_reset gs :
  concat (List.map controls (List.map (fun g =>
    Group (List.map reset_field (controls g)) (fieldErrors g)) gs))
  = List.map reset_field (concat (List.map controls gs)).
Proof.
  induction gs as [|g gs IH]; simpl; [done|]. by rewrite IH, List.map_app.
Qed.

Lemma begin_keeps_values st :
  List.map value (all_fields (exec handleSubmit_begin st))
  = List.map value (all_fields st).
Proof.
  rewrite handleSubmit_begin_run. cbv zeta.
  assert (H : List.map value (all_fields (exec validateForm st))
              = List.map value (all_fields st)).
  { rewrite exec_validateForm. unfold all_fields, set_form; cbn [with_form form].
    rewrite all_fields_validated, List.map_map. apply List.map_ext.
    intros f. by destruct (mark_inputs f) as (_ & _ & _ & ->). }
  destruct (eval validateForm st); [|done].
  unfold all_fields in *. unfold exec at 1, submitToAPI, modify. cbn [snd form].
  by destruct (setLoadingState_frame true (exec validateForm st)) as [-> _].
Qed.

(** C7: when the call is rejected, the continuation appends the one
    notification "Something went wrong. Please try again." and leaves
    the form, the values of its controls included, as it is; it does not
    show the success dialog.  The values are reset only when the call is
    fulfilled; validation and the part of the handler before the call do
    not change them either. *)
Theorem rejection_keeps_values (st : page) (reason : jsstring) :
  let failed := exec (handleSubmit_resume (Rejected reason)) st in
  let succeeded := exec (handleSubmit_resume Fulfilled) st in
  body failed = body st ++ [wentWrong]
  /\ form failed = form st
  /\ successModal failed = successModal st
  /\ all_fields succeeded = List.map reset_field (all_fields st)
  /\ body succeeded = body st
  /\ List.map value (all_fields (exec handleSubmit_begin st))
     = List.map value (all_fields st)
  /\ List.map value (all_fields (exec (handleSubmit (Rejected reason)) st))
     = List.map value (all_fields st)
  /\ body (exec (handleSubmit (Rejected reason)) st)
     = body st ++ [if eval validateForm st then wentWrong else fixErrors].
Proof.
  cbv zeta.
  assert (Hrej : forall s,
            body (exec (handleSubmit_resume (Rejected reason)) s)
            = body s ++ [wentWrong]
            /\ form (exec (handleSubmit_resume (Rejected reason)) s) = form s
            /\ successModal (exec (handleSubmit_resume (Rejected reason)) s)
               = successModal s).
  { intros s.
    unfold exec, handleSubmit_resume, bind, settled, setLoadingState,
      console_error, showNotification, modify.
    cbn. destruct (submitButton s); done. }
  destruct (Hrej st) as (H1 & H2 & H3).
  do 3 (split; [done|]). split.
  { unfold exec, handleSubmit_resume, bind, settled, setLoadingState,
      showSuccessModal, reset, modify, all_fields.
    cbn. destruct (submitButton st); cbn; apply all_fields_reset. }
  split.
  { unfold exec, handleSubmit_resume, bind, settled, setLoadingState,
      showSuccessModal, reset, modify.
    cbn. destruct (submitButton st); done. }
  split; [apply begin_keeps_values|].
  rewrite handleSubmit_run.
  destruct (eval validateForm st) eqn:Hok.
  - destruct (Hrej (exec handleSubmit_begin st)) as (-> & Hf & _).
    unfold all_fields. rewrite Hf.
    split; [apply begin_keeps_values|].
    by destruct (begin_frame st Hok) as (_ & -> & _).
  - split; [apply begin_keeps_values|].
    rewrite handleSubmit_begin_run, Hok. cbv zeta. by rewrite exec_validateForm.
Qed.

(** ** C1: a second submit while the first call is pending *)

Lemma exec_bind {A B} (m : M A) (k : A -> M B) st :
  exec (bind m k) st = exec (k (eval m st)) (exec m st).
Proof. unfold exec, eval, bind. by destruct (m st). Qed.

Lemma collect_form s s' : form s = form s' -> collect s = collect s'.
Proof. unfold collect, formData, all_fields. by intros ->. Qed.

Lemma begin_network st :
  eval validateForm st = true ->
  network (exec handleSubmit_begin st) = network st ++ [collect st]
  /\ collect (exec handleSubmit_begin st) = collect st.
Proof.
  intros Hok. destruct (begin_frame st Hok) as (Hf & _ & _ & _ & _ & -> & _).
  rewrite collect_validated. split; [done|].
  rewrite <- (collect_validated st). apply collect_form.
  by rewrite Hf, exec_validateForm.
Qed.

(** C1, as stated, fails: [handleSubmit] has no guard.  While the first
    call is pending, a second submit event validates again and calls
    [submitToAPI] again; both calls settle, each with its own outcome. *)
Lemma second_submit_calls_again :
  let st1 := exec handleSubmit_begin page_valid in
  let st4 := exec (run [Submit; Submit; Settle Fulfilled;
                        Settle (Rejected (js "offline"))]) page_valid in
  pending st1 = 1
  /\ exec handleSubmit_begin st1 <> st1
  /\ length (network (exec handleSubmit_begin st1)) = 2
  /\ length (network st4) = 2 /\ pending st4 = 0
  /\ successModal st4 = Some true /\ body st4 = [wentWrong].
Proof.
  cbv zeta. split; [reflexivity|]. split.
  - intros H. apply (f_equal pending) in H. vm_compute in H. discriminate.
  - repeat split; vm_compute; reflexivity.
Qed.

(** C1 (amended): every submit event whose form validates calls
    [submitToAPI] once more, whether or not earlier calls are pending;
    two overlapping attempts make two calls, and each call settles on
    its own, with its own success or failure.  What holds off a second
    attempt is only that the button is disabled while the busy label is
    shown. *)
Theorem overlapping_submits (st : page) (o1 o2 : outcome) :
  eval validateForm st = true ->
  let st1 := exec handleSubmit_begin st in
  let st2 := exec handleSubmit_begin st1 in
  let st3 := exec (handleSubmit_resume o1) st2 in
  let st4 := exec (handleSubmit_resume o2) st3 in
  network st1 = network st ++ [collect st]
  /\ pending st1 = S (pending st)
  /\ (forall b, submitButton st = Some b ->
                submitButton st1 = Some (Button true busyHTML))
  /\ network st2 = network st ++ [collect st; collect st]
  /\ pending st2 = S (S (pending st))
  /\ pending st3 = S (pending st)
  /\ pending st4 = pending st
  /\ network st4 = network st2
  /\ exec (run [Submit; Submit; Settle o1; Settle o2]) st = st4.
Proof.
  intros Hok. cbv zeta.
  pose proof (begin_keeps_verdict st Hok) as Hok1.
  destruct (begin_network st Hok) as [Hn1 Hc1].
  destruct (begin_network _ Hok1) as [Hn2 _].
  destruct (begin_frame st Hok) as (_ & _ & _ & _ & Hp1 & _ & Hb1).
  destruct (begin_frame _ Hok1) as (_ & _ & _ & _ & Hp2 & _ & _).
  set (st1 := exec handleSubmit_begin st) in *.
  set (st2 := exec handleSubmit_begin st1) in *.
  destruct (resume_frame o1 st2) as (Hn3 & Hp3 & _).
  set (st3 := exec (handleSubmit_resume o1) st2) in *.
  destruct (resume_frame o2 st3) as (Hn4 & Hp4 & _).
  rewrite Hp2, Hp1 in Hp3. cbn [pred] in Hp3.
  rewrite Hp3 in Hp4. cbn [pred] in Hp4.
  do 3 (split; [done|]). split.
  { rewrite Hn2, Hc1, Hn1, <- app_assoc. done. }
  split; [by rewrite Hp2, Hp1|]. do 2 (split; [done|]).
  split; [by rewrite Hn4, Hn3|].
  cbn [run]. rewrite !exec_bind.
  change (exec (step Submit) st) with st1.
  change (exec (step Submit) st1) with st2.
  assert (E3 : exec (step (Settle o1)) st2 = st3).
  { unfold step. rewrite exec_bind.
    change (eval get st2) with st2. change (exec get st2) with st2.
    by rewrite Hp2. }
  rewrite E3.
  assert (E4 : exec (step (Settle o2)) st3 = exec (handleSubmit_resume o2) st3).
  { unfold step. rewrite exec_bind.
    change (eval get st3) with st3. change (exec get st3) with st3.
    by rewrite Hp3. }
  by rewrite E4.
Qed.

Lemma overlapping_submits_witness :
  eval validateForm page_valid = true
  /\ length (network (exec handleSubmit_begin
                        (exec handleSubmit_begin page_valid))) = 2.
Proof.
  assert (H : eval validateForm page_valid = true) by reflexivity.
  split; [exact H|].
  pose proof (overlapping_submits page_valid Fulfilled Fulfilled H) as E.
  exact (eq_trans (f_equal (@length _) (proj1 (proj2 (proj2 (proj2 E)))))
                  eq_refl).
Defined.

(** ** Every listener keeps the page tidy *)

Lemma tidy_Forall st :
  tidy st = true <-> Forall (fun g => length (fieldErrors g) <= 1) (form st).
Proof.
  unfold tidy. rewrite forallb_forall, Forall_forall.
  split; intros H g Hg.
  - apply Nat.leb_le, H. by apply list_elem_of_In.
  - apply Nat.leb_le, H. by apply list_elem_of_In.
Qed.

Lemma tidy_clean st :
  Forall (fun g => fieldErrors g = []) (form st) -> tidy st = true.
Proof.
  intros H. apply tidy_Forall. eapply Forall_impl; [done|].
  intros g ->. simpl. lia.
Qed.

Lemma tidy_alter f i st :
  (forall g, length (fieldErrors g) <= 1 -> length (fieldErrors (f g)) <= 1) ->
  tidy st = true -> tidy (with_form (alter f i) st) = true.
Proof.
  intros Hf H%tidy_Forall. apply tidy_Forall. cbn [with_form form].
  apply Forall_alter; [done|]. intros g _. apply Hf.
Qed.

Lemma tidy_map f st :
  (forall g, length (fieldErrors g) <= 1 -> length (fieldErrors (f g)) <= 1) ->
  tidy st = true -> tidy (with_form (List.map f) st) = true.
Proof.
  intros Hf H%tidy_Forall. apply tidy_Forall. cbn [with_form form].
  change (List.map f (form st)) with (f <$> form st).
  apply Forall_fmap. eapply Forall_impl; [done|]. intros g. apply Hf.
Qed.

Lemma tidy_validateField r st :
  tidy st = true -> tidy (exec (validateField r) st) = true.
Proof.
  intros H. unfold exec. destruct (get_field r st) as [f|] eqn:Hf.
  - rewrite (validateField_run r st f Hf). cbn [snd].
    apply tidy_alter; [|done]. intros g Hg. unfold annotate; cbn [fieldErrors].
    rewrite length_app, length_drop. destruct (fieldValid f); simpl; lia.
  - by rewrite (validateField_missing r st Hf).
Qed.

Lemma tidy_same_form st st' :
  form st' = form st -> tidy st = true -> tidy st' = true.
Proof. unfold tidy. by intros ->. Qed.

Lemma tidy_step e st : tidy st = true -> tidy (exec (step e) st) = true.
Proof.
  intros H. unfold step. rewrite exec_bind.
  change (eval get st) with st. change (exec get st) with st.
  destruct e as [|o|r|r v].
  - rewrite handleSubmit_begin_run. cbv zeta.
    assert (Hv : tidy (exec validateForm st) = true).
    { rewrite exec_validateForm. apply (tidy_map validated); [|done].
      intros g Hg. by apply fold_errstep_short. }
    destruct (eval validateForm st).
    + eapply tidy_same_form; [|exact Hv].
      transitivity (form (exec (setLoadingState true) (exec validateForm st)));
        [done|apply setLoadingState_frame].
    + by eapply tidy_same_form; [|exact Hv].
  - destruct (pending st); [done|].
    unfold exec, handleSubmit_resume, bind, settled, setLoadingState,
      showSuccessModal, reset, console_error, showNotification, modify.
    destruct o; cbn.
    + destruct (submitButton st); cbn;
        apply (tidy_map (fun g => Group (List.map reset_field (controls g))
                                        (fieldErrors g)) st); done.
    + destruct (submitButton st); done.
  - destruct (is_required r st); [|done].
    rewrite exec_bind. by apply tidy_validateField.
  - rewrite !exec_bind.
    assert (H1 : tidy (exec (modify (with_form
                   (alter (alter_field (set_value v) r.2) r.1))) st) = true).
    { by apply tidy_alter. }
    set (s1 := exec (modify _) st) in *.
    assert (H2 : tidy (exec (if is_required r st then clearFieldError r
                             else ret tt) s1) = true).
    { destruct (is_required r st); [|done].
      apply tidy_alter; [|done]. intros g Hg. cbn. rewrite length_drop. lia. }
    destruct (decide (querySelector phoneSelector st = Some r)); [|done].
    by apply tidy_alter.
Qed.

Lemma tidy_run es : forall st,
  tidy st = true -> tidy (exec (run es) st) = true.
Proof.
  induction es as [|e es IH]; intros st H; [done|].
  cbn [run]. rewrite exec_bind. by apply IH, tidy_step.
Qed.


(** Whatever the user did before on a page whose markup has no message,
    validating twice gives what validating once gives. *)
Corollary validateForm_twice_reachable (st0 : page) (es : list event) :
  Forall (fun g => fieldErrors g = []) (form st0) ->
  let st := exec (run es) st0 in
  exec validateForm (exec validateForm st) = exec validateForm st.
Proof.
  intros Hclean st. by apply validated_form_twice, tidy_run, tidy_clean.
Qed.

(** * Further properties of the utilities *)

(** ** The matcher decides the pattern *)

Lemma span_take k cl s : k <= span cl s -> forallb (in_class cl) (take k s) = true.
Proof.
  revert k. induction s as [|c s IH]; intros [|k] Hk; simpl in *; try done.
  destruct (in_class cl c); [|lia]. simpl. apply IH. lia.
Qed.

Lemma span_prefix cl c s : forallb (in_class cl) c = true -> length c <= span cl (c ++ s).
Proof.
  induction c as [|x c IH]; simpl; [lia|].
  intros [-> Hc]%andb_prop. specialize (IH Hc). lia.
Qed.

Lemma greedy_le_span a s : greedy a s <= span (cls a) s.
Proof. unfold greedy. destruct (hi a); lia. Qed.

Lemma try_down_complete n low rest s k :
  low <= k -> k <= n -> is_Some (rest (drop k s)) ->
  is_Some (try_down n low rest s).
Proof.
  intros Hlow. induction n as [|n IH]; intros Hk Hrest; simpl.
  - assert (k = 0) as -> by lia. destruct (Nat.ltb_spec 0 low); [lia|].
    destruct Hrest as [caps ->]. done.
  - destruct (Nat.ltb_spec (S n) low); [lia|].
    destruct (rest (drop (S n) s)) eqn:E; [done|].
    apply IH; [|done]. destruct (decide (k = S n)) as [->|]; [|lia].
    rewrite E in Hrest. by destruct Hrest.
Qed.

Lemma match_seq_fits p : forall s caps,
  match_seq p s = Some caps -> s = concat caps /\ Forall2 fits p caps.
Proof.
  induction p as [|a p IH]; intros s caps; simpl.
  - destruct s; [|done]. intros [= <-]. split; [done|constructor].
  - intros (k & caps0 & Hk & Hlo & Hrest & ->)%try_down_sound.
    apply IH in Hrest as [Hcat Hall].
    pose proof (greedy_le_length a s). pose proof (greedy_le_span a s).
    split.
    + simpl. rewrite <- Hcat. symmetry. apply take_drop.
    + constructor; [|done]. unfold fits. rewrite length_take.
      split; [lia|]. split.
      * intros h Hh. pose proof (greedy_le_hi a s h Hh). lia.
      * apply span_take. lia.
Qed.

Lemma match_seq_complete p : forall caps,
  Forall2 fits p caps -> is_Some (match_seq p (concat caps)).
Proof.
  induction p as [|a p IH]; intros caps Hall.
  - apply Forall2_nil_inv_l in Hall as ->. done.
  - apply Forall2_cons_inv_l in Hall as (c & caps' & (Hlo & Hhi & Hcl) & Hall & ->).
    simpl. apply (try_down_complete _ _ _ _ (length c)); [done| |].
    + unfold greedy. pose proof (span_prefix (cls a) c (concat caps') Hcl).
      destruct (hi a) as [h|] eqn:Hh; [|done]. specialize (Hhi h eq_refl). lia.
    + rewrite drop_app_length. by apply IH.
Qed.

(** [test] answers true exactly on the strings that split into one
    fitting piece per atom. *)
Lemma test_iff p s :
  test p s = true <-> exists caps, s = concat caps /\ Forall2 fits p caps.
Proof.
  unfold test. split.
  - destruct (match_seq p s) as [caps|] eqn:E; [|done].
    intros _. exists caps. by apply match_seq_fits.
  - intros (caps & -> & Hall).
    by destruct (match_seq_complete p caps Hall) as [x ->].
Qed.

(** A piece for one literal character is that character. *)
Lemma fits_lit c (d : N) : fits (exactly 1 (lit d)) c <-> c = [d].
Proof.
  unfold fits; simpl. split.
  - intros (Hlo & Hhi & Hcl). specialize (Hhi 1 eq_refl).
    destruct c as [|x [|y c]]; simpl in *; try lia.
    rewrite andb_true_r in Hcl. by apply N.eqb_eq in Hcl as ->.
  - intros ->. simpl. rewrite N.eqb_refl. repeat split; try done.
    by intros h [= <-].
Qed.

Lemma fits_exactly n cl c :
  fits (exactly n cl) c <-> length c = n /\ forallb (in_class cl) c = true.
Proof.
  unfold fits; simpl. split.
  - intros (Hlo & Hhi & Hcl). specialize (Hhi n eq_refl). split; [lia|done].
  - intros [<- Hcl]. repeat split; try done. by intros h [= <-].
Qed.

Lemma fits_plus cl c :
  fits (plus cl) c <-> c <> [] /\ forallb (in_class cl) c = true.
Proof.
  unfold fits; simpl. split.
  - intros (Hlo & _ & Hcl). split; [|done]. intros ->. simpl in Hlo. lia.
  - intros [Hne Hcl]. repeat split; try done. destruct c; simpl; [done|lia].
Qed.

Ltac split_pieces H :=
  repeat match type of H with
         | Forall2 _ (_ :: _) _ =>
             let c := fresh "c" in let F := fresh "F" in
             apply Forall2_cons_inv_l in H as (c & ? & F & H & ->)
         | Forall2 _ [] _ => apply Forall2_nil_inv_l in H as ->
         end.

Lemma in_class_email c : in_class not_space_at c = email_char c.
Proof. unfold email_char; simpl. by rewrite negb_orb. Qed.

Lemma forallb_email s :
  forallb (in_class not_space_at) s = forallb email_char s.
Proof. apply forallb_ext', in_class_email. Qed.

(** X1: [isValidEmail] accepts exactly the strings local@domain.tld:
    three non-empty parts without whitespace and without "@", joined by
    one "@" and one "."; the domain part may itself contain dots. *)
Theorem isValidEmail_shape (s : jsstring) :
  isValidEmail s = true <->
  exists a b c, s = a ++ js "@" ++ b ++ js "." ++ c
    /\ a <> [] /\ b <> [] /\ c <> []
    /\ forallb email_char a = true /\ forallb email_char b = true
    /\ forallb email_char c = true.
Proof.
  unfold isValidEmail. rewrite test_iff. unfold emailRegex.
  change (chr "@") with (exactly 1 (lit 64%N)).
  change (chr ".") with (exactly 1 (lit 46%N)).
  split.
  - intros (caps & -> & H). split_pieces H.
    apply fits_plus in F as [Ha Ha']. apply fits_lit in F0 as ->.
    apply fits_plus in F1 as [Hb Hb']. apply fits_lit in F2 as ->.
    apply fits_plus in F3 as [Hc Hc'].
    rewrite forallb_email in Ha', Hb', Hc'.
    exists c, c1, c3. simpl. rewrite app_nil_r. done.
  - intros (a & b & c & -> & Ha & Hb & Hc & Ha' & Hb' & Hc').
    rewrite <- forallb_email in Ha', Hb', Hc'.
    exists [a; [64%N]; b; [46%N]; c]. split.
    + simpl. by rewrite app_nil_r.
    + repeat constructor; try (by apply fits_plus); by apply fits_lit.
Qed.

Lemma phoneRegex_iff (v : jsstring) :
  test phoneRegex v = true <->
  exists a b c, v = js "(" ++ a ++ js ") " ++ b ++ js "-" ++ c
    /\ length a = 3 /\ length b = 3 /\ length c = 4
    /\ forallb is_digit (a ++ b ++ c) = true.
Proof.
  rewrite test_iff. unfold phoneRegex.
  change (chr "(") with (exactly 1 (lit 40%N)).
  change (chr ")") with (exactly 1 (lit 41%N)).
  change (chr " ") with (exactly 1 (lit 32%N)).
  change (chr "-") with (exactly 1 (lit 45%N)).
  split.
  - intros (caps & -> & H). split_pieces H.
    apply fits_lit in F as ->. apply fits_exactly in F0 as [Ha Ha'].
    apply fits_lit in F1 as ->. apply fits_lit in F2 as ->.
    apply fits_exactly in F3 as [Hb Hb']. apply fits_lit in F4 as ->.
    apply fits_exactly in F5 as [Hc Hc'].
    change (in_class digit) with is_digit in *.
    exists c0, c3, c5. simpl. rewrite app_nil_r, !forallb_app.
    rewrite Ha', Hb', Hc'. done.
  - intros (a & b & c & -> & Ha & Hb & Hc & Hd).
    rewrite !forallb_app in Hd.
    apply andb_prop in Hd as [Ha' [Hb' Hc']%andb_prop].
    exists [[40%N]; a; [41%N]; [32%N]; b; [45%N]; c]. split.
    + simpl. by rewrite app_nil_r.
    + repeat constructor; try (by apply fits_exactly); by apply fits_lit.
Qed.

(** X2: the pattern of the phone check accepts exactly "(AAA) BBB-CCCC"
    with three, three and four digits. *)
Theorem phoneRegex_shape (v : jsstring) :
  test phoneRegex v = true <->
  exists a b c, v = js "(" ++ a ++ js ") " ++ b ++ js "-" ++ c
    /\ length a = 3 /\ length b = 3 /\ length c = 4
    /\ forallb is_digit (a ++ b ++ c) = true.
Proof. apply phoneRegex_iff. Qed.

(** ** trim *)

Section Trim.

Lemma trimStart_blank s : trimStart s = [] <-> forallb is_space s = true.
Proof.
  induction s as [|c s IH]; simpl; [done|].
  destruct (is_space c); simpl; [done|]. split; done.
Qed.

Lemma trimStart_head s c t : trimStart s = c :: t -> is_space c = false.
Proof.
  induction s as [|x s IH]; simpl; [done|].
  destruct (is_space x) eqn:E; [done|]. by intros [= <- <-].
Qed.

Lemma trimStart_fixed c t : is_space c = false -> trimStart (c :: t) = c :: t.
Proof. simpl. by intros ->. Qed.

Lemma trimStart_twice s : trimStart (trimStart s) = trimStart s.
Proof.
  destruct (trimStart s) as [|c t] eqn:E; [done|].
  apply trimStart_fixed. by eapply trimStart_head.
Qed.

(** What [trimStart] removes is a prefix of whitespace. *)
Lemma trimStart_split s :
  exists p, s = p ++ trimStart s /\ forallb is_space p = true.
Proof.
  induction s as [|c s (p & Hp & Hsp)]; simpl.
  - by exists [].
  - destruct (is_space c) eqn:E.
    + exists (c :: p). simpl. rewrite E, Hsp. split; [by f_equal|done].
    + by exists [].
Qed.

Lemma forallb_rev' {A} (p : A -> bool) l : forallb p (rev l) = forallb p l.
Proof.
  induction l as [|x l IH]; simpl; [done|].
  rewrite forallb_app, IH. simpl. rewrite andb_true_r. apply andb_comm.
Qed.

Lemma trimEnd_split s :
  exists q, s = trimEnd s ++ q /\ forallb is_space q = true.
Proof.
  unfold trimEnd. destruct (trimStart_split (rev s)) as (p & Hp & Hsp).
  exists (rev p). rewrite forallb_rev'. split; [|done].
  rewrite <- rev_app_distr, <- Hp. by rewrite rev_involutive.
Qed.

(** [trim] removes whitespace at both ends and nothing else. *)
Lemma trim_split s :
  exists p q, s = p ++ trim s ++ q
    /\ forallb is_space p = true /\ forallb is_space q = true.
Proof.
  destruct (trimStart_split s) as (p & Hp & Hsp).
  destruct (trimEnd_split (trimStart s)) as (q & Hq & Hsq).
  exists p, q. unfold trim. by rewrite <- Hq.
Qed.

Lemma trim_blank s : trim s = [] <-> forallb is_space s = true.
Proof.
  split.
  - intros H. destruct (trim_split s) as (p & q & Hs & Hp & Hq).
    rewrite Hs, H, !forallb_app, Hp, Hq. done.
  - intros H. unfold trim. by rewrite (proj2 (trimStart_blank s) H).
Qed.

Lemma trim_twice s : trim (trim s) = trim s.
Proof.
  assert (Hend : trimEnd (trim s) = trim s).
  { unfold trim, trimEnd. by rewrite rev_involutive, trimStart_twice. }
  assert (Hstart : trimStart (trim s) = trim s).
  { destruct (trimEnd_split (trimStart s)) as (q & Hq & _).
    fold (trim s) in Hq. destruct (trim s) as [|c t] eqn:E; [done|].
    apply trimStart_fixed. eapply trimStart_head. by rewrite Hq. }
  unfold trim at 1. by rewrite Hstart.
Qed.

Lemma space_not_digit c : is_space c = true -> is_digit c = false.
Proof.
  unfold is_space, is_digit. intros H.
  destruct (N.leb_spec 48 c), (N.leb_spec c 57); simpl; try done.
  repeat (apply orb_prop in H as [H|H]);
    repeat (apply andb_prop in H as [? H]);
    rewrite ?N.leb_le, ?N.eqb_eq in *; lia.
Qed.

Lemma blank_no_digits p : forallb is_space p = true -> stripNonDigits p = [].
Proof.
  unfold stripNonDigits. induction p as [|c p IH]; simpl; [done|].
  intros [Hc Hp]%andb_prop. by rewrite (space_not_digit c Hc), IH.
Qed.

Lemma trim_digits s : stripNonDigits (trim s) = stripNonDigits s.
Proof.
  destruct (trim_split s) as (p & q & Hs & Hp & Hq). rewrite Hs at 2.
  rewrite !stripNonDigits_app, (blank_no_digits p Hp), (blank_no_digits q Hq).
  by rewrite app_nil_r.
Qed.

(** A string that begins and ends with other characters than whitespace
    is left as it is. *)
Lemma trim_fixed c t d :
  is_space c = false -> last (c :: t) = Some d -> is_space d = false ->
  trim (c :: t) = c :: t.
Proof.
  intros Hc Hlast Hd. unfold trim. rewrite (trimStart_fixed c t Hc).
  unfold trimEnd. rewrite <- (rev_involutive (c :: t)) at 2. f_equal.
  destruct (rev (c :: t)) as [|x l] eqn:E.
  - done.
  - apply trimStart_fixed.
    assert (Hx : last (c :: t) = Some x).
    { rewrite <- (rev_involutive (c :: t)), E. simpl. by rewrite last_snoc. }
    congruence.
Qed.

End Trim.

(** [trim] is idempotent, removes only whitespace at the two ends, and
    gives the empty string exactly on strings of whitespace. *)
Lemma trim_properties (s : jsstring) :
  trim (trim s) = trim s
  /\ (trim s = [] <-> forallb is_space s = true)
  /\ (exists p q, s = p ++ trim s ++ q
        /\ forallb is_space p = true /\ forallb is_space q = true)
  /\ (forall c, head (trim s) = Some c -> is_space c = false)
  /\ (forall c, last (trim s) = Some c -> is_space c = false).
Proof.
  split; [apply trim_twice|]. split; [apply trim_blank|].
  split; [apply trim_split|]. split.
  - intros c Hc. destruct (trimEnd_split (trimStart s)) as (q & Hq & _).
    fold (trim s) in Hq. destruct (trim s) as [|x t] eqn:E; [done|].
    injection Hc as ->. eapply trimStart_head. by rewrite Hq.
  - intros c Hc. unfold trim, trimEnd in Hc.
    destruct (trimStart (rev (trimStart s))) as [|x t] eqn:E; [done|].
    simpl in Hc. rewrite last_snoc in Hc. injection Hc as <-.
    by eapply trimStart_head.
Qed.

(** ** What validateField decides *)

Lemma strict_eq_iff a b : strict_eq a b = true <-> a = b.
Proof.
  revert b. induction a as [|x a IH]; intros [|y b]; simpl; try done.
  rewrite andb_true_iff, N.eqb_eq, IH. split; [by intros [-> ->]|by intros [= -> ->]].
Qed.

Lemma strict_eq_false a b : a <> b -> strict_eq a b = false.
Proof.
  intros H. destruct (strict_eq a b) eqn:E; [|done].
  by apply strict_eq_iff in E.
Qed.

Lemma truthy_trim v : truthy (trim v) = negb (forallb is_space v).
Proof.
  destruct (forallb is_space v) eqn:E.
  - by rewrite (proj2 (trim_blank v) E).
  - destruct (trim v) eqn:T; [|done]. apply trim_blank in T. congruence.
Qed.

Lemma verdict_blank f :
  forallb is_space (value f) = true ->
  verdict f = if required f then (false, js "This field is required")
              else (true, js "").
Proof.
  intros H. unfold verdict. rewrite truthy_trim, H. simpl.
  rewrite !andb_false_r. by destruct (required f).
Qed.

Lemma verdict_unconstrained f :
  type f <> js "email" -> name f <> js "phone" ->
  verdict f = if required f && forallb is_space (value f)
              then (false, js "This field is required") else (true, js "").
Proof.
  intros Ht Hn. unfold verdict.
  rewrite (strict_eq_false _ _ Ht), (strict_eq_false _ _ Hn), truthy_trim.
  simpl. by rewrite negb_involutive.
Qed.

Lemma last_message r st f :
  get_field r st = Some f -> fieldValid f = false ->
  exists g, form (exec (validateField r) st) !! r.1 = Some g
            /\ last (fieldErrors g) = Some (errorText f).
Proof.
  intros Hf Hbad. unfold exec. rewrite (validateField_run r st f Hf).
  cbn [snd with_form form]. unfold get_field in Hf.
  destruct (form st !! r.1) as [g|] eqn:Hg; [|done].
  exists (annotate f r.2 g). rewrite list_lookup_alter_eq, Hg. split; [done|].
  unfold annotate; cbn [fieldErrors]. rewrite Hbad. apply last_snoc.
Qed.

(** X3: a value that is empty or only whitespace makes a required
    control invalid, with the message "This field is required" as the
    last one under its parent, and leaves a control that is not required
    valid, whatever its type and name. *)
Theorem blank_value (r : ref) (st : page) (f : field) :
  get_field r st = Some f ->
  forallb is_space (value f) = true ->
  eval (validateField r) st = negb (required f)
  /\ (required f = true ->
      exists g, form (exec (validateField r) st) !! r.1 = Some g
                /\ last (fieldErrors g) = Some (js "This field is required")).
Proof.
  intros Hf Hblank. pose proof (verdict_blank f Hblank) as Hv.
  split.
  - unfold eval. rewrite (validateField_run r st f Hf). cbn [fst].
    unfold fieldValid. rewrite Hv. by destruct (required f).
  - intros Hreq. rewrite Hreq in Hv.
    destruct (last_message r st f Hf) as (g & Hg & Hlast).
    { unfold fieldValid. by rewrite Hv. }
    exists g. split; [done|]. unfold errorText in Hlast. by rewrite Hv in Hlast.
Qed.

Lemma blank_value_witness :
  get_field (0, 0) page_blank_name = Some (control "text" "name" true "  ")
  /\ forallb is_space (value (control "text" "name" true "  ")) = true
  /\ eval (validateField (0, 0)) page_blank_name = false.
Proof.
  assert (Hf : get_field (0, 0) page_blank_name
               = Some (control "text" "name" true "  ")) by reflexivity.
  assert (Hb : forallb is_space (value (control "text" "name" true "  "))
               = true) by reflexivity.
  split; [exact Hf|]. split; [exact Hb|].
  exact (proj1 (blank_value (0, 0) page_blank_name _ Hf Hb)).
Defined.

(** X4: a control whose type is not email and whose name is not phone
    is invalid exactly when it is required and its value is empty or
    only whitespace. *)
Theorem unconstrained_value (r : ref) (st : page) (f : field) :
  get_field r st = Some f ->
  type f <> js "email" -> name f <> js "phone" ->
  eval (validateField r) st
  = negb (required f && forallb is_space (value f)).
Proof.
  intros Hf Ht Hn. unfold eval. rewrite (validateField_run r st f Hf).
  cbn [fst]. unfold fieldValid. rewrite (verdict_unconstrained f Ht Hn).
  by destruct (required f && forallb is_space (value f)).
Qed.

Lemma unconstrained_value_witness :
  get_field (0, 0) page_valid = Some (control "text" "name" true "Ann")
  /\ type (control "text" "name" true "Ann") <> js "email"
  /\ name (control "text" "name" true "Ann") <> js "phone"
  /\ eval (validateField (0, 0)) page_valid = true.
Proof.
  assert (Hf : get_field (0, 0) page_valid
               = Some (control "text" "name" true "Ann")) by reflexivity.
  assert (Ht : type (control "text" "name" true "Ann") <> js "email")
    by discriminate.
  assert (Hn : name (control "text" "name" true "Ann") <> js "phone")
    by discriminate.
  split; [exact Hf|]. split; [exact Ht|]. split; [exact Hn|].
  exact (eq_trans (unconstrained_value (0, 0) page_valid _ Hf Ht Hn) eq_refl).
Defined.

(** ** Formatting, then validating *)

Lemma format_digits s :
  stripNonDigits (formatPhoneNumber s) = stripNonDigits s.
Proof.
  destruct (Nat.le_gt_cases (digitCount s) 10) as [Hle|Hgt].
  - rewrite (format_upto_ten s Hle). apply grouped_digits, stripNonDigits_digits.
  - by rewrite (format_over_ten s Hgt).
Qed.

Lemma last_digit_not_space l d :
  forallb is_digit l = true -> last l = Some d -> is_space d = false.
Proof.
  intros Hl Hd. destruct (is_space d) eqn:E; [|done].
  apply space_not_digit in E.
  assert (Hin : In d l).
  { destruct l as [|x l _] using rev_ind; [done|].
    rewrite last_snoc in Hd. injection Hd as ->.
    apply in_or_app. right. by left. }
  rewrite forallb_forall in Hl. rewrite (Hl d Hin) in E. done.
Qed.

Lemma phone_test_formatted s :
  test phoneRegex (trim (formatPhoneNumber s)) = true <-> digitCount s = 10.
Proof.
  split.
  - intros (a & b & c & Hv & Ha & Hb & Hc & Hd)%phoneRegex_iff.
    unfold digitCount. rewrite <- format_digits, <- trim_digits, Hv.
    rewrite !forallb_app in Hd.
    apply andb_prop in Hd as [Ha' [Hb' Hc']%andb_prop].
    rewrite !stripNonDigits_app, (stripNonDigits_id a Ha'),
      (stripNonDigits_id b Hb'), (stripNonDigits_id c Hc').
    simpl. rewrite !length_app. lia.
  - intros H10. pose proof (stripNonDigits_digits s) as Hd.
    rewrite (format_upto_ten s) by lia. unfold digitCount in H10.
    set (ds := stripNonDigits s) in *. unfold grouped. rewrite H10.
    cbn [Nat.leb].
    assert (Hlast : exists d, last (drop 6 ds) = Some d).
    { destruct (drop 6 ds) as [|x l] eqn:E using rev_ind.
      - apply (f_equal length) in E. rewrite length_drop in E. simpl in E. lia.
      - exists x. by rewrite last_snoc. }
    destruct Hlast as [d Hlast].
    assert (Hsp : is_space d = false).
    { eapply last_digit_not_space; [|done]. by apply forallb_drop. }
    change (js "(" ++ ?l) with (40%N :: l).
    rewrite (trim_fixed 40%N _ d); [|done| |done].
    + apply phoneRegex_iff.
      exists (take 3 ds), (take 3 (drop 3 ds)), (drop 6 ds).
      split; [done|]. rewrite !length_take, !length_drop.
      repeat split; try lia.
      rewrite !forallb_app, forallb_take, forallb_take, forallb_drop;
        try done. by apply forallb_drop.
    + change (40%N :: ?l) with ([40%N] ++ l).
      rewrite !last_app, Hlast. done.
Qed.

(** X5: a control named phone, of another type than email, that holds
    what [formatPhoneNumber] made of a string [s], is valid exactly when
    [s] has ten digits, or has none and the control is not required. *)
Theorem formatted_phone_valid (r : ref) (st : page) (f : field) (s : jsstring) :
  get_field r st = Some f ->
  name f = js "phone" -> type f <> js "email" ->
  value f = formatPhoneNumber s ->
  (eval (validateField r) st = true
   <-> digitCount s = 10 \/ (required f = false /\ digitCount s = 0)).
Proof.
  intros Hf Hn Ht Hv. unfold eval. rewrite (validateField_run r st f Hf).
  cbn [fst]. unfold fieldValid, verdict.
  rewrite (strict_eq_false _ _ Ht), Hn, Hv. cbn [strict_eq andb].
  change (strict_eq (js "phone") (js "phone")) with true. cbn [andb].
  pose proof (phone_test_formatted s) as Hphone.
  destruct (trim (formatPhoneNumber s)) as [|c t] eqn:E.
  - assert (H0 : digitCount s = 0).
    { unfold digitCount. by rewrite <- format_digits, <- trim_digits, E. }
    cbn. destruct (required f); cbn.
    + split; [done|]. intros [?|[? _]]; [lia|done].
    + split; [|done]. intros _. by right.
  - assert (H0 : digitCount s <> 0).
    { intros H0. unfold digitCount in H0.
      destruct (Nat.le_gt_cases (digitCount s) 10) as [Hle|Hgt].
      - rewrite (format_upto_ten s Hle) in E. unfold grouped in E.
        destruct (stripNonDigits s); [done|]. done.
      - unfold digitCount in Hgt. lia. }
    cbn [truthy negb andb]. rewrite andb_false_r.
    destruct (test phoneRegex (c :: t)) eqn:T; cbn.
    + split; [|done]. intros _. left. by apply Hphone.
    + split; [done|]. intros [H10|[_ ?]]; [|done].
      apply Hphone in H10. congruence.
Qed.

Lemma formatted_phone_valid_witness :
  get_field (2, 0) page_valid = Some (control "tel" "phone" true "(555) 123-4567")
  /\ type (control "tel" "phone" true "(555) 123-4567") <> js "email"
  /\ js "(555) 123-4567" = formatPhoneNumber (js "5551234567")
  /\ eval (validateField (2, 0)) page_valid = true.
Proof.
  assert (Hf : get_field (2, 0) page_valid
               = Some (control "tel" "phone" true "(555) 123-4567"))
    by reflexivity.
  assert (Ht : type (control "tel" "phone" true "(555) 123-4567") <> js "email")
    by discriminate.
  assert (Hv : js "(555) 123-4567" = formatPhoneNumber (js "5551234567"))
    by reflexivity.
  split; [exact Hf|]. split; [exact Ht|]. split; [exact Hv|].
  exact (proj2 (formatted_phone_valid (2, 0) page_valid _ (js "5551234567")
                  Hf eq_refl Ht Hv) (or_introl eq_refl)).
Defined.

(** ** The payload *)

Section Payload.



Lemma get_set_prop_ne k k' v o :
  k <> k' -> get_prop k (set_prop k' v o) = get_prop k o.
Proof.
  intros Hne. unfold get_prop. induction o as [|[k2 v2] o IH]; simpl.
  - by rewrite (strict_eq_false k k').
  - destruct (strict_eq k' k2) eqn:E; simpl.
    + apply strict_eq_iff in E as <-. by rewrite (strict_eq_false k k').
    + destruct (strict_eq k k2); [done|]. apply IH.
Qed.





End Payload.


Example payload_sample :
  collect page_checkboxes
  = [(js "name", VStr (js "Bea")); (js "issue", VStr (js "late"));
     (js "creditIssues", VArr [js "late"; js "fees"])].
Proof. reflexivity. Qed.

(** ** A submission that succeeds *)

Lemma resume_fulfilled st :
  let st' := exec (handleSubmit_resume Fulfilled) st in
  form st' = List.map (fun g => Group (List.map reset_field (controls g))
                                      (fieldErrors g)) (form st)
  /\ body st' = body st /\ console st' = console st
  /\ successModal st'
     = match successModal st with Some _ => Some true | None => None end.
Proof.
  unfold exec, handleSubmit_resume, bind, settled, setLoadingState,
    showSuccessModal, reset, modify.
  cbn. destruct (submitButton st); done.
Qed.

(** X7: a submission of a valid form whose call is fulfilled makes
    exactly one call of [submitToAPI]; after it nothing is pending any
    more than before, the success dialog, if the page has one, is
    active, and the button is enabled with its original label. *)
Theorem submit_success (st : page) :
  eval validateForm st = true ->
  let st' := exec (handleSubmit Fulfilled) st in
  length (network st') = S (length (network st))
  /\ pending st' = pending st
  /\ successModal st'
     = match successModal st with Some _ => Some true | None => None end
  /\ (forall b, submitButton st = Some b ->
        submitButton st' = Some (Button false (originalButtonText st))).
Proof.
  intros Hok. cbv zeta. rewrite handleSubmit_run, Hok.
  destruct (begin_frame st Hok) as (_ & _ & Hm & Ho & Hp & Hn & Hbtn).
  set (st1 := exec handleSubmit_begin st) in *.
  destruct (resume_frame Fulfilled st1) as (Hn2 & Hp2 & _ & Hbtn2).
  destruct (resume_fulfilled st1) as (_ & _ & _ & Hm2).
  split; [by rewrite Hn2, Hn, length_app, Nat.add_1_r|].
  split; [by rewrite Hp2, Hp|]. split; [by rewrite Hm2, Hm|].
  intros b Hbt. rewrite (Hbtn2 _ (Hbtn b Hbt)). by rewrite Ho.
Qed.

Lemma submit_success_witness :
  eval validateForm page_valid = true
  /\ length (network (exec (handleSubmit Fulfilled) page_valid)) = 1
  /\ successModal (exec (handleSubmit Fulfilled) page_valid) = Some true.
Proof.
  assert (H : eval validateForm page_valid = true) by reflexivity.
  pose proof (submit_success page_valid H) as E.
  split; [exact H|]. split; [exact (proj1 E)|exact (proj1 (proj2 (proj2 E)))].
Defined.

(** ** What the listeners never change *)

Section Skeleton.

Lemma map_alter_same {A B} (h : A -> B) (g : A -> A) i (l : list A) :
  (forall x, l !! i = Some x -> h (g x) = h x) ->
  List.map h (alter g i l) = List.map h l.
Proof.
  revert i. induction l as [|a l IH]; intros [|i] H; simpl; [done..| |].
  - by rewrite (H a).
  - f_equal. by apply IH.
Qed.

Lemma skeleton_alter g i st :
  (forall x, form st !! i = Some x ->
     List.map fixed_part (controls (g x)) = List.map fixed_part (controls x)) ->
  skeleton (with_form (alter g i) st) = skeleton st.
Proof. intros H. unfold skeleton; cbn [with_form form]. by apply map_alter_same. Qed.

Lemma skeleton_map g st :
  (forall x, List.map fixed_part (controls (g x)) = List.map fixed_part (controls x)) ->
  skeleton (with_form (List.map g) st) = skeleton st.
Proof.
  intros H. unfold skeleton; cbn [with_form form]. rewrite List.map_map.
  by apply List.map_ext.
Qed.

Lemma skeleton_same_form st st' : form st' = form st -> skeleton st' = skeleton st.
Proof. unfold skeleton. by intros ->. Qed.

Lemma fixed_part_mark f : fixed_part (mark f) = fixed_part f.
Proof. unfold mark, fixed_part. by destruct (required f) eqn:E; simpl; rewrite ?E. Qed.

Lemma skeleton_get_field r st st' :
  skeleton st' = skeleton st ->
  fixed_part <$> get_field r st' = fixed_part <$> get_field r st.
Proof.
  intros H. unfold get_field.
  assert (Hg : (fun g => List.map fixed_part (controls g)) <$> form st' !! r.1
               = (fun g => List.map fixed_part (controls g)) <$> form st !! r.1).
  { rewrite <- !list_lookup_fmap. by apply (f_equal (fun l => l !! r.1)) in H. }
  destruct (form st' !! r.1) as [g'|], (form st !! r.1) as [g|];
    simpl in Hg; try done.
  injection Hg as Hg. apply (f_equal (fun l => l !! r.2)) in Hg.
  change (List.map fixed_part ?l) with (fixed_part <$> l) in Hg.
  by rewrite !list_lookup_fmap in Hg.
Qed.

Lemma begin_form st :
  form (exec handleSubmit_begin st) = List.map validated (form st).
Proof.
  rewrite handleSubmit_begin_run. cbv zeta.
  destruct (eval validateForm st).
  - transitivity (form (exec (setLoadingState true) (exec validateForm st)));
      [done|].
    destruct (setLoadingState_frame true (exec validateForm st)) as [-> _].
    by rewrite exec_validateForm.
  - by rewrite exec_validateForm.
Qed.

Lemma skeleton_validated st :
  skeleton (with_form (List.map validated) st) = skeleton st.
Proof.
  apply skeleton_map. intros g. cbn [validated controls].
  rewrite List.map_map. apply List.map_ext, fixed_part_mark.
Qed.

Lemma skeleton_field_alter (h : field -> field) r st :
  (forall f, get_field r st = Some f -> fixed_part (h f) = fixed_part f) ->
  forall k, skeleton (with_form (alter (fun g => alter_errors k (alter_field h r.2 g)) r.1) st)
            = skeleton st.
Proof.
  intros H k. apply skeleton_alter. intros g Hg. cbn [alter_errors alter_field controls].
  apply map_alter_same. intros f Hf. apply H. unfold get_field. by rewrite Hg.
Qed.

Lemma skeleton_field_alter' (h : field -> field) r st :
  (forall f, get_field r st = Some f -> fixed_part (h f) = fixed_part f) ->
  skeleton (with_form (alter (alter_field h r.2) r.1) st) = skeleton st.
Proof.
  intros H. apply skeleton_alter. intros g Hg. cbn [alter_field controls].
  apply map_alter_same. intros f Hf. apply H. unfold get_field. by rewrite Hg.
Qed.

Lemma is_required_field r st :
  is_required r st = true ->
  exists f, get_field r st = Some f /\ required f = true.
Proof. unfold is_required. destruct (get_field r st) as [f|]; [eauto|done]. Qed.

Lemma skeleton_clear r st :
  is_required r st = true ->
  skeleton (exec (clearFieldError r) st) = skeleton st.
Proof.
  intros (f & Hf & Hreq)%is_required_field.
  apply (skeleton_field_alter (set_errorClass false)).
  intros f' Hf'. assert (f' = f) as -> by congruence.
  unfold fixed_part; simpl. by rewrite Hreq.
Qed.

Lemma skeleton_validateField r st :
  is_required r st = true ->
  skeleton (exec (validateField r) st) = skeleton st.
Proof.
  intros (f & Hf & Hreq)%is_required_field.
  unfold exec. rewrite (validateField_run r st f Hf). cbn [snd].
  apply skeleton_alter. intros g Hg. cbn [annotate controls].
  apply map_alter_same. intros f' Hf'.
  assert (f' = f) as ->.
  { unfold get_field in Hf. rewrite Hg in Hf. congruence. }
  unfold fixed_part; simpl. by rewrite Hreq.
Qed.

Lemma is_required_skeleton r st st' :
  skeleton st' = skeleton st -> is_required r st' = is_required r st.
Proof.
  intros H%(skeleton_get_field r). unfold is_required.
  destruct (get_field r st') as [f'|], (get_field r st) as [f|];
    simpl in H; try done.
  by injection H.
Qed.

Lemma skeleton_step e st : skeleton (exec (step e) st) = skeleton st.
Proof.
  unfold step. rewrite exec_bind.
  change (eval get st) with st. change (exec get st) with st.
  destruct e as [|o|r|r v].
  - unfold skeleton. rewrite begin_form. apply (skeleton_validated st).
  - destruct (pending st); [done|]. destruct o.
    + unfold skeleton. rewrite (proj1 (resume_fulfilled st)).
      apply (skeleton_map (fun g => Group (List.map reset_field (controls g))
                                          (fieldErrors g)) st).
      intros g. cbn [controls]. rewrite List.map_map. by apply List.map_ext.
    + apply skeleton_same_form.
      unfold exec, handleSubmit_resume, bind, settled, setLoadingState,
        console_error, showNotification, modify.
      cbn. destruct (submitButton st); done.
  - destruct (is_required r st) eqn:E; [|done].
    rewrite exec_bind. by apply skeleton_validateField.
  - rewrite !exec_bind.
    set (s1 := exec (modify _) st).
    assert (H1 : skeleton s1 = skeleton st).
    { by apply (skeleton_field_alter' (set_value v)). }
    set (s2 := exec (if is_required r st then clearFieldError r else ret tt) s1).
    assert (H2 : skeleton s2 = skeleton s1).
    { unfold s2. destruct (is_required r st) eqn:E; [|done].
      apply skeleton_clear. by rewrite (is_required_skeleton r st s1 H1). }
    destruct (decide (querySelector phoneSelector st = Some r)).
    + rewrite <- H1, <- H2.
      by apply (skeleton_field_alter'
                  (fun f => set_value (formatPhoneNumber (value f)) f)).
    + by rewrite <- H1, <- H2.
Qed.

Lemma skeleton_run es : forall st, skeleton (exec (run es) st) = skeleton st.
Proof.
  induction es as [|e es IH]; intros st; [done|].
  cbn [run]. rewrite exec_bind, IH. apply skeleton_step.
Qed.

End Skeleton.

(** X8: whatever events arrive, no control is added or removed, no
    control changes its tag, type, name, required flag or defaults, and
    a control that is not required keeps its error class as it was. *)
Theorem listeners_keep_controls (es : list event) (st : page) (r : ref) :
  skeleton (exec (run es) st) = skeleton st
  /\ fixed_part <$> get_field r (exec (run es) st)
     = fixed_part <$> get_field r st.
Proof.
  split; [apply skeleton_run|apply skeleton_get_field, skeleton_run].
Qed.

(** ** Typing into a control *)

Lemma input_run r v st :
  exec (step (Input r v)) st
  = with_form (alter (fun g =>
      Group (alter (fun f =>
               let f1 := set_value v f in
               let f2 := if is_required r st then set_errorClass false f1 else f1 in
               if decide (querySelector phoneSelector st = Some r)
               then set_value (formatPhoneNumber (value f2)) f2 else f2)
             r.2 (controls g))
            (if is_required r st then drop 1 (fieldErrors g) else fieldErrors g))
      r.1) st.
Proof.
  unfold step. rewrite !exec_bind.
  change (eval get st) with st. change (exec get st) with st.
  unfold exec, clearFieldError, modify, ret. cbn [snd].
  destruct (is_required r st), (decide (querySelector phoneSelector st = Some r));
    cbn [snd]; rewrite ?with_form_with_form; unfold with_form; f_equal;
    cbn [form compose]; rewrite ?list_alter_alter_eq;
    apply list_alter_ext; try done; intros g _;
    unfold alter_errors, alter_field, compose; cbn [controls fieldErrors];
    rewrite ?list_alter_alter_eq; f_equal; by apply list_alter_ext.
Qed.

Lemma format_fixed v : formatPhoneNumber (formatPhoneNumber v) = formatPhoneNumber v.
Proof.
  destruct (Nat.le_gt_cases (digitCount v) 10) as [Hle|Hgt].
  - rewrite (format_upto_ten (formatPhoneNumber v)).
    + by rewrite format_digits, <- format_upto_ten.
    + unfold digitCount in *. by rewrite format_digits.
  - by rewrite !(format_over_ten v Hgt).
Qed.

(** X9: when the user edits a required control, the listeners store
    the new value (formatted, for the phone input), drop the control's
    error class and remove the first message under its parent; on a tidy
    page no message is left there. *)
Theorem typing_clears_error (r : ref) (st : page) (f : field) (g : group)
    (v : jsstring) :
  form st !! r.1 = Some g -> controls g !! r.2 = Some f ->
  required f = true ->
  let st' := exec (step (Input r v)) st in
  exists g' f',
    form st' !! r.1 = Some g' /\ controls g' !! r.2 = Some f'
    /\ errorClass f' = false
    /\ value f' = (if decide (querySelector phoneSelector st = Some r)
                   then formatPhoneNumber v else v)
    /\ fieldErrors g' = drop 1 (fieldErrors g)
    /\ (tidy st = true -> fieldErrors g' = []).
Proof.
  intros Hg Hf Hreq. cbv zeta. rewrite input_run.
  assert (Hr : is_required r st = true).
  { unfold is_required, get_field. by rewrite Hg, Hf. }
  rewrite Hr. cbn [with_form form]. rewrite list_lookup_alter_eq, Hg.
  eexists _, _. split; [done|]. cbn [controls fieldErrors].
  rewrite list_lookup_alter_eq, Hf. split; [done|].
  split; [by destruct (decide _)|]. split; [by destruct (decide _)|].
  split; [done|].
  intros Ht. apply drop_ge, (proj1 (tidy_spec st) Ht).
  apply list_elem_of_In. by eapply list_elem_of_lookup_2.
Qed.

Lemma typing_clears_error_witness :
  form page_after_blur !! 0
  = Some (Group [set_errorClass true (control "text" "name" true "")]
                [js "This field is required"])
  /\ exists g' f',
       form (exec (step (Input (0, 0) (js "A"))) page_after_blur) !! 0 = Some g'
       /\ controls g' !! 0 = Some f'
       /\ errorClass f' = false
       /\ value f' = js "A"
       /\ fieldErrors g' = []
       /\ (tidy page_after_blur = true -> fieldErrors g' = []).
Proof.
  split; [reflexivity|].
  exact (typing_clears_error (0, 0) page_after_blur
           (set_errorClass true (control "text" "name" true ""))
           (Group [set_errorClass true (control "text" "name" true "")]
                  [js "This field is required"])
           (js "A") eq_refl eq_refl eq_refl).
Defined.

(** X10: what the phone input holds after an edit is a fixed point of
    [formatPhoneNumber] and has the digits that were typed, in order. *)
Theorem typing_in_phone (r : ref) (st : page) (f : field) (v : jsstring) :
  querySelector phoneSelector st = Some r ->
  get_field r st = Some f ->
  exists f', get_field r (exec (step (Input r v)) st) = Some f'
    /\ value f' = formatPhoneNumber v
    /\ formatPhoneNumber (value f') = value f'
    /\ stripNonDigits (value f') = stripNonDigits v.
Proof.
  intros Hq Hf. rewrite input_run. unfold get_field in *.
  cbn [with_form form]. rewrite list_lookup_alter_eq.
  destruct (form st !! r.1) as [g|]; [|done]. cbn.
  rewrite list_lookup_alter_eq, Hf. cbn. eexists. split; [done|].
  destruct (decide (querySelector phoneSelector st = Some r)); [|done].
  assert (Hv : forall x, value (set_value (formatPhoneNumber (value x)) x)
                         = formatPhoneNumber (value x)) by done.
  rewrite Hv.
  assert (Hv2 : value (if is_required r st
                       then set_errorClass false (set_value v f)
                       else set_value v f) = v) by by destruct (is_required r st).
  rewrite Hv2. split; [done|]. split; [apply format_fixed|apply format_digits].
Qed.

Lemma typing_in_phone_witness :
  querySelector phoneSelector page_valid = Some (2, 0)
  /\ exists f', get_field (2, 0) (exec (step (Input (2, 0) (js "555123"))) page_valid)
                = Some f'
       /\ value f' = formatPhoneNumber (js "555123")
       /\ formatPhoneNumber (value f') = value f'
       /\ stripNonDigits (value f') = stripNonDigits (js "555123").
Proof.
  split; [reflexivity|].
  exact (typing_in_phone (2, 0) page_valid
           (control "tel" "phone" true "(555) 123-4567") (js "555123")
           eq_refl eq_refl).
Defined.

(** * debounce and throttle *)

Section Wrappers.

Import Timing.
Context {A : Type}.

Lemma debounce_run_from (es : list (tick A)) : forall s,
  invoked (debounce_run es s)
  = invoked s
    ++ match timeout s, es with
       | Some a, Fire :: _ => [a]
       | _, _ => []
       end
    ++ settled_calls es.
Proof.
  induction es as [|e es IH]; intros s.
  - simpl. destruct (timeout s); by rewrite !app_nil_r.
  - unfold debounce_run in *. cbn [fold_left]. rewrite IH.
    destruct e as [b|]; cbn [debounce_step].
    + cbn [timeout invoked settled_calls].
      destruct (timeout s); by destruct es as [|[c|] es'].
    + destruct (timeout s) as [a|] eqn:Ht; cbn [timeout invoked settled_calls].
      * by rewrite <- !app_assoc.
      * by rewrite Ht.
Qed.

Lemma settled_burst (l : list A) (a : A) (es : list (tick A)) :
  settled_calls (List.map Call l ++ Call a :: Fire :: es)
  = a :: settled_calls (Fire :: es).
Proof.
  induction l as [|b l IH]; [done|].
  cbn [List.map app]. cbn [settled_calls]. rewrite IH.
  by destruct l.
Qed.

Lemma settled_calls_only (l : list A) (a : A) :
  settled_calls (List.map Call l ++ [Call a]) = [].
Proof.
  induction l as [|b l IH]; [done|].
  cbn [List.map app]. destruct l; [done|]. exact IH.
Qed.

Lemma segments_cons (es : list (tick A)) :
  exists seg segs, segments es = seg :: segs.
Proof.
  induction es as [|[a|] es (seg & segs & IH)]; simpl; eauto.
  rewrite IH. eauto.
Qed.

Lemma throttle_run_from (es : list (tick A)) : forall s,
  ran (throttle_run es s)
  = ran s ++ concat (List.map (take 1)
                       (if inThrottle s then drop 1 (segments es)
                        else segments es)).
Proof.
  induction es as [|e es IH]; intros s.
  - simpl. destruct (inThrottle s); by rewrite app_nil_r.
  - unfold throttle_run in *. cbn [fold_left]. rewrite IH.
    destruct e as [a|]; cbn [throttle_step segments].
    + destruct (segments_cons es) as (seg & segs & ->).
      destruct (inThrottle s) eqn:E; cbn [negb inThrottle ran]; rewrite ?E;
        [done|].
      simpl. by rewrite <- app_assoc.
    + cbn [inThrottle ran]. by destruct (inThrottle s).
Qed.

Lemma segments_length (es : list (tick A)) :
  length (segments es)
  = S (length (List.filter (fun e => match e with Fire => true | _ => false end) es)).
Proof.
  induction es as [|[a|] es IH]; simpl; [done| |by rewrite IH].
  destruct (segments_cons es) as (seg & segs & E). rewrite E in *. done.
Qed.

Lemma take1_total_length (l : list (list A)) :
  length (concat (List.map (take 1) l)) <= length l.
Proof.
  induction l as [|x l IH]; simpl; [done|].
  rewrite length_app, length_take. lia.
Qed.

End Wrappers.

(** X11: the function that [debounce] wraps never runs inside a call;
    it runs when the timer expires, with the arguments of the latest
    call.  Over any sequence of calls and expiries it has run exactly
    for the calls that were directly followed by an expiry; a burst of
    calls followed by one expiry runs it once, for the last call. *)
Theorem debounce_runs_last_call {A : Type} (es : list (Timing.tick A))
    (l : list A) (a : A) (done_before : list A) :
  Timing.invoked (Timing.debounce_run es (Timing.Debounced None done_before))
  = done_before ++ Timing.settled_calls es
  /\ Timing.invoked
       (Timing.debounce_run (List.map Timing.Call l ++ [Timing.Call a])
                            (Timing.Debounced None done_before))
     = done_before
  /\ Timing.invoked
       (Timing.debounce_run (List.map Timing.Call l ++ [Timing.Call a; Timing.Fire])
                            (Timing.Debounced None done_before))
     = done_before ++ [a].
Proof.
  rewrite !debounce_run_from. cbn [Timing.timeout Timing.invoked app].
  split; [done|]. split.
  - by rewrite settled_calls_only, app_nil_r.
  - by rewrite settled_burst.
Qed.

(** X12: the function that [throttle] wraps runs for the first call and,
    after each expiry of the timer, for the first call that follows; the
    other calls are dropped, not deferred.  So it has run at most once
    more than the timer expired. *)
Theorem throttle_runs_first_call {A : Type} (es : list (Timing.tick A))
    (done_before : list A) :
  let s := Timing.throttle_run es (Timing.Throttled false done_before) in
  Timing.ran s
  = done_before ++ concat (List.map (take 1) (Timing.segments es))
  /\ length (Timing.ran s)
     <= length done_before
        + S (length (List.filter
                       (fun e => match e with Timing.Fire => true | _ => false end)
                       es)).
Proof.
  cbv zeta. rewrite throttle_run_from. cbn [Timing.inThrottle Timing.ran].
  split; [done|]. rewrite length_app, <- segments_length.
  pose proof (take1_total_length (Timing.segments es)). lia.
Qed.

Example throttle_drops_trailing_call :
  Timing.ran (Timing.throttle_run
                [Timing.Call 1; Timing.Call 2; Timing.Call 3; Timing.Fire;
                 Timing.Fire; Timing.Call 4; Timing.Call 5]
                (Timing.Throttled false []))
  = [1; 4].
Proof. reflexivity. Qed.

Example debounce_keeps_last_call :
  Timing.invoked (Timing.debounce_run
                    [Timing.Call 1; Timing.Call 2; Timing.Fire; Timing.Fire;
                     Timing.Call 3; Timing.Call 4]
                    (Timing.Debounced None []))
  = [2].
Proof. reflexivity. Qed.

(** * The FAQ: clicks and keys *)

Section Faq.

Import Accordion.

(** After a click on an item, every other item is closed. *)
Lemma toggleItem_closed_form i (items : list bool) a :
  items !! i = Some a ->
  toggleItem i items = <[i := negb a]> (replicate (length items) false).
Proof.
  intros Hi. unfold toggleItem. rewrite Hi.
  assert (Hlt : i < length items) by by eapply lookup_lt_Some.
  apply list_eq. intros j. rewrite !list_lookup_insert, length_imap, length_replicate.
  destruct (decide (i = j /\ i < length items)) as [[-> _]|Hne]; [done|].
  rewrite list_lookup_imap.
  destruct (items !! j) as [b|] eqn:Hj; simpl.
  - rewrite lookup_replicate_2 by by eapply lookup_lt_Some.
    destruct (decide (j <> i)); [done|]. exfalso. apply Hne. split; [lia|done].
  - symmetry. apply lookup_replicate_None. by apply lookup_ge_None.
Qed.

Lemma open_items_one n i (b : bool) :
  i < n ->
  open_items (<[i := b]> (replicate n false)) = if b then 1 else 0.
Proof.
  intros Hi. unfold open_items.
  rewrite insert_take_drop by by rewrite length_replicate.
  rewrite take_replicate, drop_replicate, List.filter_app. cbn [List.filter].
  assert (Hnone : forall k, List.filter id (replicate k false) = []).
  { induction k; [done|]. simpl. done. }
  rewrite Hnone. destruct b; simpl; by rewrite Hnone.
Qed.

End Faq.

(** X13: a click on a FAQ item leaves every other item closed and turns
    the clicked item around, so at most one item is open afterwards,
    however many were open before. *)
Theorem accordion_one_open (i : nat) (items : list bool) (a : bool) :
  items !! i = Some a ->
  let items' := Accordion.toggleItem i items in
  length items' = length items
  /\ items' !! i = Some (negb a)
  /\ (forall j, j <> i -> j < length items -> items' !! j = Some false)
  /\ Accordion.open_items items' = (if a then 0 else 1).
Proof.
  intros Hi. cbv zeta. rewrite (toggleItem_closed_form i items a Hi).
  assert (Hlt : i < length items) by by eapply lookup_lt_Some.
  split; [by rewrite length_insert, length_replicate|].
  split; [apply list_lookup_insert_eq; by rewrite length_replicate|].
  split.
  - intros j Hne Hj. rewrite list_lookup_insert_ne by done.
    by apply lookup_replicate_2.
  - rewrite open_items_one by done. by destruct a.
Qed.

Lemma accordion_one_open_witness :
  [true; true; false] !! 2 = Some false
  /\ Accordion.toggleItem 2 [true; true; false] !! 2 = Some true
  /\ Accordion.open_items (Accordion.toggleItem 2 [true; true; false]) = 1.
Proof.
  pose proof (accordion_one_open 2 [true; true; false] false eq_refl) as H.
  split; [reflexivity|]. split; [exact (proj1 (proj2 H))|].
  exact (proj2 (proj2 (proj2 H))).
Defined.

(** X14: two clicks in a row.  On the same item the second click undoes
    the first for that item, all others staying closed; on another item
    it closes the first and opens the second. *)
Theorem accordion_two_clicks (i j : nat) (items : list bool) (a : bool) :
  items !! i = Some a -> j < length items ->
  Accordion.toggleItem j (Accordion.toggleItem i items)
  = if decide (i = j) then <[i := a]> (replicate (length items) false)
    else <[j := true]> (replicate (length items) false).
Proof.
  intros Hi Hj. rewrite (toggleItem_closed_form i items a Hi).
  assert (Hlt : i < length items) by by eapply lookup_lt_Some.
  destruct (decide (i = j)) as [<-|Hne].
  - rewrite (toggleItem_closed_form i _ (negb a)).
    + rewrite length_insert, length_replicate, negb_involutive. done.
    + apply list_lookup_insert_eq. by rewrite length_replicate.
  - rewrite (toggleItem_closed_form j _ false).
    + by rewrite length_insert, length_replicate.
    + rewrite list_lookup_insert_ne by done. by apply lookup_replicate_2.
Qed.

Lemma accordion_two_clicks_witness :
  [true; true; false] !! 0 = Some true /\ 2 < length [true; true; false]
  /\ Accordion.toggleItem 2 (Accordion.toggleItem 0 [true; true; false])
     = [false; false; true].
Proof.
  split; [reflexivity|]. split; [simpl; lia|].
  exact (accordion_two_clicks 0 2 [true; true; false] true eq_refl
           (Nat.lt_succ_diag_r 2)).
Defined.

Section Keys.

Import Keyboard.
Local Open Scope Z_scope.

Lemma focus_item_in n i :
  0 <= i < Z.of_nat n -> focus_item n i = Focus i.
Proof.
  intros [H0 Hn]. unfold focus_item.
  destruct (Z.leb_spec 0 i), (Z.ltb_spec i (Z.of_nat n)); simpl; try done; lia.
Qed.

Lemma press_down n cur :
  (0 < n)%nat -> -1 <= cur < Z.of_nat n ->
  press n (js "ArrowDown") cur = (cur + 1) mod Z.of_nat n.
Proof.
  intros Hn Hc. unfold press, handleFAQNavigation.
  change (strict_eq (js "ArrowDown") (js "ArrowDown")) with true. cbv iota.
  destruct n as [|n']; [lia|].
  rewrite Z.rem_mod_nonneg by lia.
  rewrite focus_item_in; [done|]. apply Z.mod_pos_bound. lia.
Qed.

Lemma press_up n cur :
  (0 < n)%nat -> -1 <= cur < Z.of_nat n ->
  press n (js "ArrowUp") cur = (if 0 <? cur then cur - 1 else Z.of_nat n - 1).
Proof.
  intros Hn Hc. unfold press, handleFAQNavigation.
  change (strict_eq (js "ArrowUp") (js "ArrowDown")) with false.
  change (strict_eq (js "ArrowUp") (js "ArrowUp")) with true. cbv iota.
  rewrite focus_item_in; [done|].
  destruct (Z.ltb_spec 0 cur); lia.
Qed.

Lemma press_down_iter n k cur :
  (0 < n)%nat -> 0 <= cur < Z.of_nat n ->
  Nat.iter k (press n (js "ArrowDown")) cur = (cur + Z.of_nat k) mod Z.of_nat n.
Proof.
  intros Hn Hc. induction k as [|k IH].
  - simpl. rewrite Z.add_0_r, Z.mod_small; [done|lia].
  - rewrite Nat.iter_succ, IH, press_down; [|done|].
    + rewrite Z.add_mod_idemp_l by lia. f_equal. lia.
    + pose proof (Z.mod_pos_bound (cur + Z.of_nat k) (Z.of_nat n)). lia.
Qed.

End Keys.

(** X15: on a page with at least one FAQ question, each of the four
    keys moves the focus to a question that exists: the index stays
    inside the list and nothing throws, also when the key arrives from
    an element inside a question, for which [indexOf] gives -1.  Any
    other key is left alone. *)
Theorem faq_keys_in_bounds (n : nat) (cur : Z) (key : jsstring) :
  0 < n -> (-1 <= cur < Z.of_nat n)%Z ->
  match Keyboard.handleFAQNavigation n cur key with
  | Some e => exists i, e = Keyboard.Focus i /\ (0 <= i < Z.of_nat n)%Z
  | None => key <> js "ArrowDown" /\ key <> js "ArrowUp"
            /\ key <> js "Home" /\ key <> js "End"
  end.
Proof.
  intros Hn Hc. unfold Keyboard.handleFAQNavigation.
  destruct (strict_eq key (js "ArrowDown")) eqn:E1.
  { destruct n as [|n']; [lia|].
    assert (0 <= Z.rem (cur + 1) (Z.of_nat (S n')) < Z.of_nat (S n'))%Z.
    { rewrite Z.rem_mod_nonneg by lia. apply Z.mod_pos_bound. lia. }
    rewrite focus_item_in by done. eauto. }
  destruct (strict_eq key (js "ArrowUp")) eqn:E2.
  { assert (0 <= (if (0 <? cur)%Z then cur - 1 else Z.of_nat n - 1) < Z.of_nat n)%Z.
    { destruct (Z.ltb_spec 0 cur); lia. }
    rewrite focus_item_in by done. eauto. }
  destruct (strict_eq key (js "Home")) eqn:E3.
  { rewrite focus_item_in by lia. eexists. split; [done|lia]. }
  destruct (strict_eq key (js "End")) eqn:E4.
  { rewrite focus_item_in by lia. eexists. split; [done|lia]. }
  repeat split; intros ->; done.
Qed.

Lemma faq_keys_in_bounds_witness :
  0 < 3 /\ (-1 <= 2 < Z.of_nat 3)%Z
  /\ exists i, Keyboard.Focus 0 = Keyboard.Focus i /\ (0 <= i < 3)%Z.
Proof.
  assert (H1 : 0 < 3) by lia.
  assert (H2 : (-1 <= 2 < Z.of_nat 3)%Z) by lia.
  split; [exact H1|]. split; [exact H2|].
  exact (faq_keys_in_bounds 3 2 (js "ArrowDown") H1 H2).
Defined.

(** X16: from a question, ArrowDown and ArrowUp undo each other, they
    wrap around at the two ends, and as many ArrowDown as there are
    questions bring the focus back to where it was. *)
Theorem faq_keys_round_trip (n : nat) (cur : Z) :
  0 < n -> (0 <= cur < Z.of_nat n)%Z ->
  Keyboard.press n (js "ArrowUp") (Keyboard.press n (js "ArrowDown") cur) = cur
  /\ Keyboard.press n (js "ArrowDown") (Keyboard.press n (js "ArrowUp") cur) = cur
  /\ Keyboard.press n (js "ArrowDown") (Z.of_nat n - 1) = 0%Z
  /\ Keyboard.press n (js "ArrowUp") 0 = (Z.of_nat n - 1)%Z
  /\ Nat.iter n (Keyboard.press n (js "ArrowDown")) cur = cur.
Proof.
  intros Hn Hc.
  assert (Hdown : forall c, (0 <= c < Z.of_nat n)%Z ->
            Keyboard.press n (js "ArrowDown") c
            = (if (c + 1 <? Z.of_nat n)%Z then c + 1 else 0)%Z).
  { intros c Hcc. rewrite press_down by lia.
    destruct (Z.ltb_spec (c + 1) (Z.of_nat n)).
    - apply Z.mod_small. lia.
    - assert (c + 1 = Z.of_nat n)%Z as -> by lia. apply Z.mod_same. lia. }
  assert (Hup : forall c, (0 <= c < Z.of_nat n)%Z ->
            Keyboard.press n (js "ArrowUp") c
            = (if (0 <? c)%Z then c - 1 else Z.of_nat n - 1)%Z).
  { intros c Hcc. apply press_up; lia. }
  split.
  { rewrite (Hdown cur Hc). destruct (Z.ltb_spec (cur + 1) (Z.of_nat n)).
    - rewrite Hup by lia. destruct (Z.ltb_spec 0 (cur + 1)); lia.
    - rewrite Hup by lia. simpl. lia. }
  split.
  { rewrite (Hup cur Hc). destruct (Z.ltb_spec 0 cur).
    - rewrite Hdown by lia. destruct (Z.ltb_spec (cur - 1 + 1) (Z.of_nat n)); lia.
    - rewrite Hdown by lia.
      destruct (Z.ltb_spec (Z.of_nat n - 1 + 1) (Z.of_nat n)); lia. }
  split.
  { rewrite Hdown by lia.
    destruct (Z.ltb_spec (Z.of_nat n - 1 + 1) (Z.of_nat n)); lia. }
  split; [by rewrite Hup by lia|].
  rewrite press_down_iter by done.
  rewrite <- (Z.mul_1_l (Z.of_nat n)) at 1. rewrite Z.mod_add by lia.
  apply Z.mod_small. done.
Qed.

Lemma faq_keys_round_trip_witness :
  0 < 3 /\ (0 <= 1 < Z.of_nat 3)%Z
  /\ Nat.iter 3 (Keyboard.press 3 (js "ArrowDown")) 1%Z = 1%Z.
Proof.
  assert (H1 : 0 < 3) by lia.
  assert (H2 : (0 <= 1 < Z.of_nat 3)%Z) by lia.
  split; [exact H1|]. split; [exact H2|].
  exact (proj2 (proj2 (proj2 (proj2 (faq_keys_round_trip 3 1 H1 H2))))).
Defined.

(** * MobileNavigation *)

Section Navigation.

Import Nav.

Lemma updateMenuState_synced st : synced (updateMenuState st).
Proof.
  unfold synced, updateMenuState.
  destruct (navMenu st) as [m|], (isOpen st), (hamburger st); cbn;
    repeat split; intros; simplify_eq; done.
Qed.

Lemma run_task_synced t st : synced st -> synced (run_task t st).
Proof.
  unfold synced, run_task. intros (H1 & H2 & H3).
  destruct (navMenu st) as [m|] eqn:E; [|by rewrite E].
  cbn. repeat split; [done| |done].
  intros m' [= <-]. destruct t; cbn; by apply H2.
Qed.

Lemma step_synced e st : synced st -> synced (step e st).
Proof.
  intros H. destruct e as [| |inside|w|k]; cbn.
  - apply updateMenuState_synced.
  - apply updateMenuState_synced.
  - unfold handleOutsideClick. destruct (isOpen st && negb inside); [|done].
    apply updateMenuState_synced.
  - unfold handleResize. destruct (1024 <=? w)%Z; [|done].
    pose proof (updateMenuState_synced (set_isOpen false st)) as (H1 & H2 & H3).
    assert (Ho : isOpen (updateMenuState (set_isOpen false st)) = false).
    { unfold updateMenuState. cbn. by destruct (navMenu st). }
    unfold closeMenu. repeat split; try done. cbn [overflow isOpen].
    by rewrite Ho.
  - destruct (timers st !! k); [|done]. apply run_task_synced.
    destruct H as (H1 & H2 & H3). repeat split; done.
Qed.

End Navigation.

(** X17: whatever the user does and whenever the timers expire, the
    class [active] of the hamburger and of the menu and the scroll lock
    of the body agree with [isOpen]; after a click on the hamburger or on
    a link they agree even if they did not before. *)
Theorem nav_stays_synced (es : list Nav.event) (st : Nav.nav) :
  (Nav.synced st -> Nav.synced (Nav.run es st))
  /\ Nav.synced (Nav.step Nav.HamburgerClick st)
  /\ Nav.synced (Nav.step Nav.LinkClick st).
Proof.
  split; [|split; apply updateMenuState_synced].
  revert st. induction es as [|e es IH]; intros st H; [done|].
  apply IH. by apply step_synced.
Qed.

(** X18: when the menu is closed and opened again before the timer of
    the closing has expired, that timer still hides the menu: in
    whichever order the two pending timers expire, the menu ends with
    [display: none] although it is open, marked active, and the body
    scroll is locked. *)
Theorem nav_reopened_menu_hidden (st : Nav.nav) (m : Nav.menu) (k : nat) :
  Nav.navMenu st = Some m -> Nav.timers st = [] -> k <= 1 ->
  let st' := Nav.run [Nav.LinkClick; Nav.HamburgerClick; Nav.Timer k; Nav.Timer 0] st in
  Nav.isOpen st' = true
  /\ Nav.overflow st' = js "hidden"
  /\ Nav.timers st' = []
  /\ Nav.navMenu st'
     = Some (Nav.Menu true (js "none") (js "1") (js "translateY(0)")).
Proof.
  intros Hm Ht Hk. destruct st as [o h nm ov ts]. simpl in Hm, Ht. subst.
  assert (k = 0 \/ k = 1) as [-> | ->] by lia; cbn; done.
Qed.

Lemma nav_reopened_menu_hidden_witness :
  Nav.navMenu nav_open
  = Some (Nav.Menu true (js "flex") (js "1") (js "translateY(0)"))
  /\ Nav.timers nav_open = [] /\ 1 <= 1
  /\ Nav.navMenu (Nav.run [Nav.LinkClick; Nav.HamburgerClick; Nav.Timer 1;
                           Nav.Timer 0] nav_open)
     = Some (Nav.Menu true (js "none") (js "1") (js "translateY(0)")).
Proof.
  assert (H : 1 <= 1) by lia.
  split; [reflexivity|]. split; [reflexivity|]. split; [exact H|].
  exact (proj2 (proj2 (proj2
    (nav_reopened_menu_hidden nav_open _ 1 eq_refl eq_refl H)))).
Defined.

Lemma nav_stays_synced_witness :
  Nav.synced nav_open
  /\ Nav.synced (Nav.run [Nav.DocumentClick false; Nav.Timer 0;
                          Nav.HamburgerClick; Nav.Resize 1280] nav_open).
Proof.
  assert (H : Nav.synced nav_open).
  { repeat split; [by intros b [= <-]|by intros m [= <-]]. }
  split; [exact H|].
  exact (proj1 (nav_stays_synced [Nav.DocumentClick false; Nav.Timer 0;
                                  Nav.HamburgerClick; Nav.Resize 1280]
                                 nav_open) H).
Defined.

(** * ModalManager *)

Section Modals.

Import Modal.

Lemma close_first p (l : list element) k :
  (forall e, p (set_active false e) = false) ->
  find_index p l = Some k ->
  length (List.filter p (alter (set_active false) k l))
  = pred (length (List.filter p l)).
Proof.
  intros Hp. revert k. induction l as [|x l IH]; intros k; simpl; [done|].
  destruct (p x) eqn:Hx.
  - intros [= <-]. simpl. by rewrite Hp.
  - destruct (find_index p l) as [j|] eqn:Hj; [|done].
    intros [= <-]. simpl. rewrite Hx. by apply IH.
Qed.

Lemma find_index_none {A} (p : A -> bool) (l : list A) :
  find_index p l = None -> List.filter p l = [].
Proof.
  induction l as [|x l IH]; simpl; [done|].
  destruct (p x); [done|]. destruct (find_index p l); [done|]. auto.
Qed.

Lemma escape_count d :
  open_modals (keydown (js "Escape") d) = pred (open_modals d).
Proof.
  unfold keydown, open_modals.
  change (strict_eq (js "Escape") (js "Escape")) with true. cbv iota.
  destruct (find_index _ (elements d)) as [k|] eqn:E.
  - cbn [closeModal elements]. apply close_first; [|done].
    intros e. cbn. apply andb_false_r.
  - by rewrite (find_index_none _ _ E).
Qed.

Lemma find_index_first {A} (p : A -> bool) (l : list A) j e :
  l !! j = Some e -> p e = true ->
  (forall i e', i < j -> l !! i = Some e' -> p e' = false) ->
  find_index p l = Some j.
Proof.
  revert j. induction l as [|x l IH]; intros j Hj He Hlt; [done|].
  destruct j as [|j]; simpl in *.
  - injection Hj as ->. by rewrite He.
  - rewrite (Hlt 0 x); [|lia|done].
    rewrite (IH j); [done|done|done|].
    intros i e' Hi He'. apply (Hlt (S i) e'); [lia|done].
Qed.

Lemma alter_as_insert {A} (f : A -> A) (l : list A) j e :
  l !! j = Some e -> alter f j l = <[j := f e]> l.
Proof.
  revert j. induction l as [|x l IH]; intros j Hj; [done|].
  destruct j as [|j]; simpl in *.
  - by injection Hj as ->.
  - f_equal. by apply IH.
Qed.

End Modals.

(** X19: the Escape key closes one modal and unlocks the scroll of the
    body, also when other modals are still active; the modal it closes is
    the first active one in document order, and every other element stays
    as it was; as many presses as there are active modals close them all.
    Other keys change nothing. *)
Theorem escape_closes_modals (d : Modal.doc) (k : nat) (key : jsstring) :
  Modal.open_modals (Modal.keydown (js "Escape") d) = pred (Modal.open_modals d)
  /\ (0 < Modal.open_modals d ->
      Modal.overflow (Modal.keydown (js "Escape") d) = js "")
  /\ Modal.open_modals (Nat.iter k (Modal.keydown (js "Escape")) d)
     = Modal.open_modals d - k
  /\ (key <> js "Escape" -> Modal.keydown key d = d)
  /\ (forall j e,
        Modal.elements d !! j = Some e ->
        Modal.isModal e = true -> Modal.active e = true ->
        (forall i e', i < j -> Modal.elements d !! i = Some e' ->
                      Modal.isModal e' && Modal.active e' = false) ->
        Modal.keydown (js "Escape") d
        = Modal.Doc (<[j := Modal.Element (Modal.elementId e) true false]>
                       (Modal.elements d))
                    (js "")).
Proof.
  split; [apply escape_count|]. split.
  { unfold Modal.keydown, Modal.open_modals.
    change (strict_eq (js "Escape") (js "Escape")) with true. cbv iota.
    destruct (Modal.find_index _ (Modal.elements d)) as [j|] eqn:E; [done|].
    rewrite (find_index_none _ _ E). simpl. lia. }
  split.
  { induction k as [|k IH]; [simpl; lia|].
    rewrite Nat.iter_succ, escape_count, IH. lia. }
  split.
  { intros Hk. unfold Modal.keydown. by rewrite (strict_eq_false _ _ Hk). }
  intros j e Hj Hm Ha Hlt. unfold Modal.keydown.
  change (strict_eq (js "Escape") (js "Escape")) with true. cbv iota.
  rewrite (find_index_first _ _ j e Hj); [|by rewrite Hm, Ha|done].
  cbn [Modal.closeModal]. rewrite (alter_as_insert _ _ j e Hj).
  unfold Modal.set_active. by rewrite Hm.
Qed.

Lemma escape_closes_modals_witness :
  0 < Modal.open_modals doc_two_modals
  /\ Modal.open_modals (Modal.keydown (js "Escape") doc_two_modals) = 1
  /\ Modal.overflow (Modal.keydown (js "Escape") doc_two_modals) = js ""
  /\ Modal.keydown (js "Escape") doc_three_elements
     = Modal.Doc [Modal.Element (js "banner") false true;
                  Modal.Element (js "successModal") true false;
                  Modal.Element (js "infoModal") true true] (js "").
Proof.
  assert (H : 0 < Modal.open_modals doc_two_modals) by (vm_compute; lia).
  pose proof (escape_closes_modals doc_two_modals 0 (js "Escape")) as E.
  split; [exact H|]. split; [exact (proj1 E)|].
  split; [exact (proj1 (proj2 E) H)|].
  refine (proj2 (proj2 (proj2 (proj2
    (escape_closes_modals doc_three_elements 0 (js "Escape")))))
    1 (Modal.Element (js "successModal") true true) _ _ _ _);
    [reflexivity|reflexivity|reflexivity|].
  intros i e' Hi He'. assert (i = 0) as -> by lia.
  simpl in He'. by injection He' as <-.
Defined.

(** * The goals textarea *)

Section Goals.

Import Prefill.

Lemma startsWith_app t s : startsWith (t ++ s) t = true.
Proof. induction t as [|c t IH]; simpl; [done|]. by rewrite N.eqb_refl. Qed.

Lemma includes_prefix t s : includes (t ++ s) t = true.
Proof. destruct (t ++ s) eqn:E; simpl; rewrite <- E, startsWith_app; done. Qed.

Lemma includes_app_r p s t : includes s t = true -> includes (p ++ s) t = true.
Proof.
  intros H. induction p as [|c p IH]; [done|].
  simpl. rewrite IH. apply orb_true_r.
Qed.

Lemma normalize_noCR_id s : noCR s = true -> normalizeNewlines s = s.
Proof.
  induction s as [|c s IH]; [done|]. simpl.
  destruct (c =? 13)%N; [done|]. intros H. by rewrite IH.
Qed.

Lemma normalize_noCR_app a b :
  noCR a = true -> normalizeNewlines (a ++ b) = a ++ normalizeNewlines b.
Proof.
  induction a as [|c a IH]; [done|]. simpl.
  destruct (c =? 13)%N; [done|]. intros H. by rewrite IH.
Qed.

Lemma normalize_step c t :
  normalizeNewlines (c :: t)
  = if (c =? 13)%N then
      10%N :: match t with
              | d :: u => if (d =? 10)%N then normalizeNewlines u
                          else normalizeNewlines t
              | [] => []
              end
    else c :: normalizeNewlines t.
Proof. done. Qed.

Lemma noCR_normalize s : noCR (normalizeNewlines s) = true.
Proof.
  assert (H : forall n s, length s <= n -> noCR (normalizeNewlines s) = true).
  { clear s. induction n as [|n IH]; intros [|c t] Hl; simpl in Hl;
      [done|lia|done|].
    rewrite normalize_step. destruct (c =? 13)%N eqn:Ec.
    - destruct t as [|d u]; [done|]. simpl in Hl.
      destruct (d =? 10)%N.
      + change (noCR (normalizeNewlines u) = true). apply IH. lia.
      + change (noCR (normalizeNewlines (d :: u)) = true). apply IH. simpl. lia.
    - cbn [noCR forallb]. rewrite Ec. cbn [negb andb].
      apply IH. lia. }
  by apply (H (length s)).
Qed.

Lemma normalize_idem s :
  normalizeNewlines (normalizeNewlines s) = normalizeNewlines s.
Proof. apply normalize_noCR_id, noCR_normalize. Qed.

Lemma normalize_keeps_suffix p b :
  noCR b = true -> exists p', normalizeNewlines (p ++ b) = p' ++ b.
Proof.
  intros Hb.
  assert (H : forall n p, length p <= n ->
                exists p', normalizeNewlines (p ++ b) = p' ++ b).
  { clear p. induction n as [|n IH]; intros [|c t] Hl; simpl in Hl;
      try (exists []; by rewrite normalize_noCR_id); [lia|].
    rewrite <- app_comm_cons, normalize_step. destruct (c =? 13)%N.
    - destruct t as [|d t'].
      + destruct b as [|d u]; [by exists [10%N]|]. cbn [app].
        assert (Hu : noCR u = true).
        { cbn [noCR forallb] in Hb. by apply andb_prop in Hb as [_ ?]. }
        destruct (d =? 10)%N eqn:Ed.
        * apply N.eqb_eq in Ed as ->. exists [].
          by rewrite (normalize_noCR_id u Hu).
        * exists [10%N]. by rewrite (normalize_noCR_id (d :: u) Hb).
      + simpl in Hl. rewrite <- app_comm_cons. destruct (d =? 10)%N.
        * destruct (IH t' ltac:(lia)) as [q ->]. by exists (10%N :: q).
        * rewrite app_comm_cons.
          destruct (IH (d :: t') ltac:(simpl; lia)) as [q ->].
          by exists (10%N :: q).
    - destruct (IH t ltac:(lia)) as [q ->]. by exists (c :: q). }
  by apply (H (length p)).
Qed.

Lemma noCR_serviceText h :
  noCR (textOr h (js "Service")) = true -> noCR (serviceText h) = true.
Proof.
  intros H. unfold serviceText, noCR in *.
  by rewrite !forallb_app, H.
Qed.

(** What [textarea.value] reads after a click on a card whose sentence
    holds no carriage return. *)
Lemma servicePrefill_value h v :
  noCR (serviceText h) = true ->
  normalizeNewlines (servicePrefill h v)
  = if includes (normalizeNewlines v) (serviceText h)
    then normalizeNewlines v
    else serviceText h ++ normalizeNewlines v.
Proof.
  intros H. unfold servicePrefill.
  destruct (includes (normalizeNewlines v) (serviceText h)); cbn [negb]; [done|].
  by rewrite (normalize_noCR_app _ _ H), normalize_idem.
Qed.

Lemma servicePrefill_includes h v :
  noCR (serviceText h) = true ->
  includes (normalizeNewlines (servicePrefill h v)) (serviceText h) = true.
Proof.
  intros H. rewrite (servicePrefill_value h v H).
  destruct (includes (normalizeNewlines v) (serviceText h)) eqn:E; [done|].
  apply includes_prefix.
Qed.

Lemma servicePrefill_stable h v :
  includes (normalizeNewlines v) (serviceText h) = true -> servicePrefill h v = v.
Proof. unfold servicePrefill. by intros ->. Qed.

Lemma servicePrefill_suffix h v :
  exists p, normalizeNewlines (servicePrefill h v) = p ++ normalizeNewlines v.
Proof.
  unfold servicePrefill.
  destruct (includes (normalizeNewlines v) (serviceText h)); cbn [negb].
  - by exists [].
  - apply normalize_keeps_suffix, noCR_normalize.
Qed.

End Goals.

(** X20: for a service card whose heading holds no carriage return, the
    sentence that a click on the card puts in front of the goals text is
    never put there twice: after the click the text read from the
    textarea holds the sentence, a second click on the same card changes
    nothing, also after a click on any other card; what the textarea
    read before the clicks is kept as the end of what it reads after
    them; and a click on a pricing button afterwards changes nothing,
    since the text is not empty. *)
Theorem service_sentence_once (h h2 h3 : option jsstring) (v : jsstring) :
  Prefill.noCR (Prefill.textOr h (js "Service")) = true ->
  let v1 := Prefill.servicePrefill h v in
  let v2 := Prefill.servicePrefill h2 v1 in
  Prefill.includes (Prefill.normalizeNewlines v1) (Prefill.serviceText h) = true
  /\ Prefill.servicePrefill h v1 = v1
  /\ Prefill.servicePrefill h v2 = v2
  /\ (exists p, Prefill.normalizeNewlines v2 = p ++ Prefill.normalizeNewlines v)
  /\ Prefill.pricingPrefill h3 v1 = v1.
Proof.
  intros Hh%noCR_serviceText. cbv zeta.
  pose proof (servicePrefill_includes h v Hh) as Hin.
  split; [done|].
  split; [by apply servicePrefill_stable|].
  split.
  { apply servicePrefill_stable.
    destruct (servicePrefill_suffix h2 (Prefill.servicePrefill h v)) as [p ->].
    by apply includes_app_r. }
  split.
  { destruct (servicePrefill_suffix h2 (Prefill.servicePrefill h v)) as [p ->].
    destruct (servicePrefill_suffix h v) as [p' ->].
    exists (p ++ p'). by rewrite app_assoc. }
  unfold Prefill.pricingPrefill.
  destruct (Prefill.normalizeNewlines (Prefill.servicePrefill h v)); [done|done].
Qed.

Lemma service_sentence_once_witness :
  Prefill.noCR (Prefill.textOr (Some (js "Credit Repair")) (js "Service")) = true
  /\ Prefill.servicePrefill (Some (js "Credit Repair"))
       (Prefill.servicePrefill (Some (js "Credit Repair")) (js "Hello"))
     = js "I'm interested in Credit Repair. Hello".
Proof.
  assert (H : Prefill.noCR (Prefill.textOr (Some (js "Credit Repair"))
                                           (js "Service")) = true)
    by reflexivity.
  split; [exact H|].
  exact (eq_trans
           (proj1 (proj2 (service_sentence_once (Some (js "Credit Repair"))
                            None None (js "Hello") H)))
           eq_refl).
Defined.

(** With a carriage return in the heading the sentence is put in front
    a second time: the text read back has a line feed in its place, so
    [includes] does not find the sentence. *)
Example service_sentence_twice :
  Prefill.servicePrefill heading_with_CR
    (Prefill.servicePrefill heading_with_CR [])
  = Prefill.serviceText heading_with_CR
    ++ js "I'm interested in Credit" ++ [10%N] ++ js "Repair. ".
Proof. reflexivity. Qed.

(** * Two more facts about the form *)

(** X21: a control of type email, not named phone, tolerates whitespace
    around the address: with a value that is not blank it is valid
    exactly when the trimmed value is an address for [isValidEmail];
    with a blank value it is valid exactly when it is not required. *)
Theorem email_field_valid (r : ref) (st : page) (f : field) :
  get_field r st = Some f ->
  type f = js "email" -> name f <> js "phone" ->
  eval (validateField r) st
  = if forallb is_space (value f) then negb (required f)
    else isValidEmail (trim (value f)).
Proof.
  intros Hf Ht Hn. unfold eval. rewrite (validateField_run r st f Hf).
  cbn [fst]. unfold fieldValid, verdict.
  rewrite (strict_eq_false _ _ Hn), Ht, truthy_trim.
  change (strict_eq (js "email") (js "email")) with true.
  destruct (forallb is_space (value f)); cbn.
  - rewrite andb_true_r. by destruct (required f).
  - rewrite andb_false_r. by destruct (isValidEmail (trim (value f))).
Qed.

Lemma email_field_valid_witness :
  get_field (0, 0) page_padded_email = Some (control "email" "email" true " a@b.co ")
  /\ name (control "email" "email" true " a@b.co ") <> js "phone"
  /\ eval (validateField (0, 0)) page_padded_email = true.
Proof.
  assert (Hf : get_field (0, 0) page_padded_email
               = Some (control "email" "email" true " a@b.co ")) by reflexivity.
  assert (Hn : name (control "email" "email" true " a@b.co ") <> js "phone")
    by discriminate.
  split; [exact Hf|]. split; [exact Hn|].
  exact (eq_trans (email_field_valid (0, 0) page_padded_email _ Hf eq_refl Hn)
                  eq_refl).
Defined.

(** X22: on markup where no parent of a control contains the parent of
    another control, so that every message lies under one parent only:
    if no parent holds more than one message, then no sequence of
    submits, settled calls, blurs and edits ever leaves more than one
    message under a parent. *)
Theorem listeners_keep_tidy (es : list event) (st : page) :
  tidy st = true -> tidy (exec (run es) st) = true.
Proof. apply tidy_run. Qed.

Lemma listeners_keep_tidy_witness :
  tidy page_one_empty = true
  /\ tidy (exec (run [Blur (0, 0); Submit; Input (0, 0) (js "A"); Submit;
                      Settle Fulfilled]) page_one_empty) = true.
Proof.
  assert (H : tidy page_one_empty = true) by reflexivity.
  split; [exact H|].
  exact (listeners_keep_tidy [Blur (0, 0); Submit; Input (0, 0) (js "A"); Submit;
                              Settle Fulfilled] page_one_empty H).
Defined.
